(** * Session guard and song loading of the home page (JS/home.js)

    A shallow embedding of the session part of [home.js]: the token cache in
    [localStorage], the validity checks, the one-shot login redirect, the
    refresh of the access token, the profile fetch, logout, the HTML escaping
    helper and the page loop that loads every song.

    Conventions of the embedding.
    - A JavaScript string is a [string]: a sequence of code units, here
      restricted to the code units below 256.
    - A JavaScript number is an integer [Z].  The program only handles epoch
      seconds, page numbers and HTTP statuses; the clock plus the leeway is far
      below 2^53, where comparing doubles and comparing integers agree.
      [NaN], the only other number the program can meet (out of [parseInt]),
      is the [None] of an [option Z].
    - The browser is a [world]: the two storage areas, the navigations asked
      of [window.location] and the requests handed to [fetch].  A navigation
      is recorded and the script goes on.
    - What the program cannot decide is read from an [env]: the clock (one
      reading for the checks of a call), the answer of the network to a
      request, whether [localStorage] accepts a write (quota), the text
      produced by [JSON.stringify], and the URLs the page was configured
      with.
    - An [async] function is a state transformer that returns, throws
      (a rejected promise) or, for the one loop of the file, runs out of
      fuel.  The exceptions modelled are the ones the program handles: a
      rejected [fetch], a body that is not JSON, a property read of [null],
      a refused [localStorage.setItem] and the explicit [throw].  The write
      of the one-character redirect flag to [sessionStorage] is taken to
      succeed, as are reads and removals.
    - [init] and the code that builds the page are not part of the
      embedding.  [init] is the only place that removes the redirect flag,
      after a successful profile fetch. *)

From Stdlib Require Import ZArith String Ascii List Bool Lia DecimalString DecimalPos.
From stdpp Require Import gmap strings list fin_maps.

Set Warnings "-register-all".

Local Open Scope string_scope.
Local Open Scope Z_scope.

(** ** JavaScript values and the built-ins the program uses *)

(** The values that reach the program: [undefined] and what [JSON.parse]
    builds.  An object is the list of its properties; a read takes the
    first binding of a name. *)
Inductive value : Type :=
| VUndefined
| VNull
| VBool (b : bool)
| VNum (n : Z)
| VStr (s : string)
| VArr (xs : list value)
| VObj (fields : list (string * value)).

(** [!!v]: the falsy values are [undefined], [null], [false], [0] and [""]. *)
Definition truthy (v : value) : bool :=
  match v with
  | VUndefined | VNull => false
  | VBool b => b
  | VNum n => negb (n =? 0)
  | VStr s => negb (String.eqb s "")
  | VArr _ | VObj _ => true
  end.

Fixpoint assoc (k : string) (fields : list (string * value)) : option value :=
  match fields with
  | [] => None
  | (k', v) :: rest => if String.eqb k k' then Some v else assoc k rest
  end.

(** [v.k] for the property names the program reads ([access_token],
    [access_expires_at], [refresh_token], [refresh_expires_at]), none of
    which is a property of a string, a number, a boolean or an array.
    Reading a property of [null] or [undefined] throws: [None]. *)
Definition get_prop (v : value) (k : string) : option value :=
  match v with
  | VUndefined | VNull => None
  | VObj fields => Some (default VUndefined (assoc k fields))
  | _ => Some VUndefined
  end.

(** Decimal text of an integer, as [String(n)] prints it. *)
Definition string_of_Z (n : Z) : string := NilZero.string_of_int (Z.to_int n).

Fixpoint join (sep : string) (parts : list string) : string :=
  match parts with
  | [] => ""
  | [p] => p
  | p :: rest => p +:+ sep +:+ join sep rest
  end.

(** [String(v)], also the conversion [setItem] and a template literal apply.
    An array prints its elements separated by commas, [null] and [undefined]
    elements as the empty string. *)
Fixpoint ToString (v : value) : string :=
  match v with
  | VUndefined => "undefined"
  | VNull => "null"
  | VBool true => "true"
  | VBool false => "false"
  | VNum n => string_of_Z n
  | VStr s => s
  | VArr xs =>
      join "," (map (fun x => match x with
                              | VUndefined | VNull => ""
                              | _ => ToString x
                              end) xs)
  | VObj _ => "[object Object]"
  end.

(** *** [parseInt(s, 10)] *)

Definition is_white_space (c : ascii) : bool :=
  let n := nat_of_ascii c in
  ((9 <=? n) && (n <=? 13) || (n =? 32) || (n =? 160))%nat.

Fixpoint skip_white_space (s : string) : string :=
  match s with
  | String c rest => if is_white_space c then skip_white_space rest else s
  | EmptyString => s
  end.

Definition digit_of (c : ascii) : option Z :=
  let n := Z.of_nat (nat_of_ascii c) in
  if (48 <=? n) && (n <=? 57) then Some (n - 48) else None.

(** The longest prefix of decimal digits, read as a number; [acc] is [None]
    until a digit has been read. *)
Fixpoint digits (s : string) (acc : option Z) : option Z :=
  match s with
  | String c rest =>
      match digit_of c with
      | Some d => digits rest (Some (10 * default 0 acc + d))
      | None => acc
      end
  | EmptyString => acc
  end.

(** Leading white space is skipped, one sign is read, then the digits; no
    digit gives [NaN]. *)
Definition parseInt (s : string) : option Z :=
  match skip_white_space s with
  | String "-" rest => Z.opp <$> digits rest None
  | String "+" rest => digits rest None
  | t => digits t None
  end.

(** [a > b] on numbers: false as soon as [a] is [NaN]. *)
Definition num_gt (a : option Z) (b : Z) : bool :=
  match a with
  | Some x => b <? x
  | None => false
  end.

(** *** [String.prototype.replaceAll] with a string pattern

    Matches are found left to right and do not overlap; [skip] counts the
    code units of the current match still to be dropped.  The empty pattern
    matches before every code unit and at the end.  The replacement is
    inserted as it is: the replacement strings of the program contain no
    [$]. *)
Fixpoint replaceAll_from (pat rep : string) (skip : nat) (s : string) : string :=
  match s with
  | EmptyString => EmptyString
  | String c rest =>
      match skip with
      | S k => replaceAll_from pat rep k rest
      | O =>
          if String.prefix pat s
          then rep +:+ replaceAll_from pat rep (String.length pat - 1) rest
          else String c (replaceAll_from pat rep 0 rest)
      end
  end.

Fixpoint intersperse_all (rep : string) (s : string) : string :=
  match s with
  | EmptyString => rep
  | String c rest => rep +:+ String c (intersperse_all rep rest)
  end.

Definition replaceAll (pat rep : string) (s : string) : string :=
  match pat with
  | EmptyString => intersperse_all rep s
  | _ => replaceAll_from pat rep 0 s
  end.

(** ** The browser: storage, navigation and network *)

(** A URL as the program handles it: the address up to the query, and
    [searchParams] as an ordered list of pairs. *)
Record url : Type := Url { u_href : string; u_search : list (string * string) }.

(** [url.searchParams.set(k, v)]: the first pair named [k] takes the value
    [v] and the other pairs named [k] are removed; without such a pair,
    [(k, v)] is appended. *)
Fixpoint searchParams_set (k v : string) (q : list (string * string))
  : list (string * string) :=
  match q with
  | [] => [(k, v)]
  | (k', v') :: rest =>
      if String.eqb k' k
      then (k, v) :: filter (fun p => negb (String.eqb (fst p) k)) rest
      else (k', v') :: searchParams_set k v rest
  end.

Fixpoint searchParams_get (k : string) (q : list (string * string)) : option string :=
  match q with
  | [] => None
  | (k', v) :: rest => if String.eqb k' k then Some v else searchParams_get k rest
  end.

(** The argument of [fetch]. *)
Record request : Type := Request {
  rq_method : string;
  rq_url : url;
  rq_headers : list (string * string);
  rq_body : option string
}.

(** What comes back: [fetch] rejects (network error), or a response with a
    status and a body; the body is [None] when [resp.json()] rejects. *)
Inductive exchange : Type :=
| Rejected
| Response (status : Z) (body : option value).

(** [resp.ok]: the status is in the range 200-299. *)
Definition ok (status : Z) : bool := (200 <=? status) && (status <=? 299).

Inductive exn : Type :=
| NetworkError
| SyntaxError
| TypeError
| QuotaExceededError
| Error (msg : string).

Record env : Type := Env {
  now : Z;                                  (* nowEpoch() *)
  net : request -> exchange;
  ls_accepts : gmap string string -> string -> string -> bool;
  JSON_stringify : value -> string;
  API_BASE : string;
  SONGS_BASE : string;
  login_page : url                          (* new URL(LOGIN_URL, location.href) *)
}.

Record world : Type := World {
  ls : gmap string string;                  (* localStorage *)
  ss : gmap string string;                  (* sessionStorage *)
  navs : list url;                          (* window.location.replace, oldest first *)
  reqs : list request                       (* calls of fetch, oldest first *)
}.

Definition set_ls (f : gmap string string -> gmap string string) (w : world) : world :=
  World (f (ls w)) (ss w) (navs w) (reqs w).

(** ** Computations *)

Inductive outcome (A : Type) : Type :=
| Return (a : A)
| Throw (e : exn)
| OutOfFuel.
Arguments Return {A} a.
Arguments Throw {A} e.
Arguments OutOfFuel {A}.

Definition M (A : Type) : Type := world -> outcome A * world.

#[global] Instance M_ret : MRet M := fun A a w => (Return a, w).

#[global] Instance M_bind : MBind M := fun A B f m w =>
  match m w with
  | (Return a, w') => f a w'
  | (Throw e, w') => (Throw e, w')
  | (OutOfFuel, w') => (OutOfFuel, w')
  end.

Definition throw {A} (e : exn) : M A := fun w => (Throw e, w).

(** [try { body } catch (err) { handler }] *)
Definition try_catch {A} (body : M A) (handler : exn -> M A) : M A := fun w =>
  match body w with
  | (Throw e, w') => handler e w'
  | r => r
  end.

Definition read {A} (f : world -> A) : M A := fun w => (Return (f w), w).

Definition result {A} (r : outcome A * world) : outcome A := fst r.
Definition after {A} (r : outcome A * world) : world := snd r.

(** [localStorage.setItem(k, v)]: refused writes throw. *)
Definition setItem (e : env) (k v : string) : M unit := fun w =>
  if ls_accepts e (ls w) k v
  then (Return tt, set_ls (insert k v) w)
  else (Throw QuotaExceededError, w).

(** [localStorage.removeItem(k)] *)
Definition removeItem (k : string) : M unit := fun w =>
  (Return tt, set_ls (delete k) w).

(** [await fetch(rq)]: the request is logged; a network error throws. *)
Definition fetch (e : env) (rq : request) : M (Z * option value) := fun w =>
  let w' := World (ls w) (ss w) (navs w) (reqs w ++ [rq])%list in
  match net e rq with
  | Rejected => (Throw NetworkError, w')
  | Response status body => (Return (status, body), w')
  end.

(** [await resp.json()] *)
Definition json (resp : Z * option value) : M value :=
  match snd resp with
  | Some v => mret v
  | None => throw SyntaxError
  end.

(** A property read as a computation. *)
Definition prop (v : value) (k : string) : M value :=
  match get_prop v k with
  | Some x => mret x
  | None => throw TypeError
  end.

(** ** home.js *)

Module ROUTES.
Definition me (e : env) : url := Url (API_BASE e +:+ "/api/me") [].
Definition refresh (e : env) : url := Url (API_BASE e +:+ "/api/auth/refresh") [].
Definition logout (e : env) : url := Url (API_BASE e +:+ "/api/auth/logout") [].
Definition songs (e : env) : url := Url (SONGS_BASE e +:+ "/api/songs") [].
End ROUTES.

Module LS.
Definition access : string := "auth.access_token".
Definition accessExp : string := "auth.access_expires_at".
Definition refresh : string := "auth.refresh_token".
Definition refreshExp : string := "auth.refresh_expires_at".
Definition me : string := "auth.me".
End LS.

(** The key of the one-shot flag in [sessionStorage]. *)
Definition REDIRECTING : string := "auth.redirecting".

(** [getItem(k) || d]: [null] and the empty string both give [d]. *)
Definition item_or (d : string) (o : option string) : string :=
  match o with
  | Some EmptyString | None => d
  | Some s => s
  end.

Definition getAT (w : world) : string := item_or "" (ls w !! LS.access).
Definition getATExp (w : world) : option Z := parseInt (item_or "0" (ls w !! LS.accessExp)).
Definition getRT (w : world) : string := item_or "" (ls w !! LS.refresh).
Definition getRTExp (w : world) : option Z := parseInt (item_or "0" (ls w !! LS.refreshExp)).

Definition saveTokens (e : env) (data : value) : M unit :=
  at_ ← prop data "access_token";
  setItem e LS.access (ToString at_);;
  exp ← prop data "access_expires_at";
  setItem e LS.accessExp (ToString exp);;
  rt ← prop data "refresh_token";
  rexp ← prop data "refresh_expires_at";
  if truthy rt && truthy rexp then
    setItem e LS.refresh (ToString rt);;
    setItem e LS.refreshExp (ToString rexp)
  else mret tt.

Definition clearTokens : M unit :=
  removeItem LS.access;;
  removeItem LS.accessExp;;
  removeItem LS.refresh;;
  removeItem LS.refreshExp;;
  removeItem LS.me.

Definition hasValidAT (e : env) (w : world) : bool :=
  negb (String.eqb (getAT w) "") && num_gt (getATExp w) (now e + 15).

Definition hasValidRT (e : env) (w : world) : bool :=
  negb (String.eqb (getRT w) "") && num_gt (getRTExp w) (now e + 15).

(** The address [redirectLogin] navigates to. *)
Definition login_target (e : env) : url :=
  Url (u_href (login_page e)) (searchParams_set "from" "home" (u_search (login_page e))).

Definition redirectLogin (e : env) : M unit := fun w =>
  if decide (ss w !! REDIRECTING = Some "1") then (Return tt, w)
  else (Return tt,
        World (ls w) (<[REDIRECTING := "1"]> (ss w)) (navs w ++ [login_target e])%list (reqs w)).

Definition refresh_request (e : env) (rt : string) : request :=
  Request "POST" (ROUTES.refresh e) [("Content-Type", "application/json")]
          (Some (JSON_stringify e (VObj [("refresh_token", VStr rt)]))).

Definition ensureAccessToken (e : env) : M value := fun w =>
  if hasValidAT e w then (Return (VStr (getAT w)), w)
  else if negb (hasValidRT e w) then
    (redirectLogin e;; mret (VStr "")) w
  else
    try_catch
      (resp ← fetch e (refresh_request e (getRT w));
       if negb (ok (fst resp)) then
         redirectLogin e;; mret (VStr "")
       else
         data ← json resp;
         saveTokens e data;;
         prop data "access_token")
      (fun err => redirectLogin e;; mret (VStr ""))
      w.

Definition me_request (e : env) (accessToken : value) : request :=
  Request "GET" (ROUTES.me e)
          [("Authorization", "Bearer " +:+ ToString accessToken)] None.

Definition fetchMe (e : env) (accessToken : value) : M value :=
  res ← fetch e (me_request e accessToken);
  if negb (ok (fst res)) then
    redirectLogin e;; mret VNull
  else
    me ← json res;
    try_catch (setItem e LS.me (JSON_stringify e me)) (fun _ => mret tt);;
    mret me.

Definition logout_request (e : env) (at_ : string) : request :=
  Request "POST" (ROUTES.logout e) [("Authorization", "Bearer " +:+ at_)] None.

Definition onLogout (e : env) : M unit :=
  at_ ← read getAT;
  try_catch
    (if negb (String.eqb at_ "") then fetch e (logout_request e at_);; mret tt
     else mret tt)
    (fun _ => mret tt);;
  clearTokens;;
  redirectLogin e.

(** The one-character string made of the double quote (code 34). *)
Definition DQUOTE : string := String "034" EmptyString.

Definition escapeHtml (s : value) : string :=
  replaceAll "'" "&#039;"
    (replaceAll DQUOTE "&quot;"
      (replaceAll ">" "&gt;"
        (replaceAll "<" "&lt;"
          (replaceAll "&" "&amp;" (ToString s))))).

Definition PAGE_SIZE : Z := 200.

Definition songs_request (e : env) (page : Z) : request :=
  Request "GET"
    (Url (u_href (ROUTES.songs e))
         (searchParams_set "page_size" (string_of_Z PAGE_SIZE)
            (searchParams_set "page" (string_of_Z page) (u_search (ROUTES.songs e)))))
    [] None.

(** The [while (true)] loop of [fetchAllSongs]; one unit of fuel pays for
    one page. *)
Fixpoint fetchAllSongs_loop (e : env) (fuel : nat) (page : Z) (all : list value)
  : M (list value) :=
  match fuel with
  | O => fun w => (OutOfFuel, w)
  | S fuel' =>
      res ← fetch e (songs_request e page);
      if negb (ok (fst res)) then
        throw (Error ("/api/songs failed: " +:+ string_of_Z (fst res)))
      else
        rows ← json res;
        match rows with
        | VArr xs =>
            if (Z.of_nat (length xs) =? 0) then mret all
            else
              let all' := (all ++ xs)%list in
              if (Z.of_nat (length xs) <? PAGE_SIZE) then mret all'
              else fetchAllSongs_loop e fuel' (page + 1) all'
        | _ => mret all
        end
  end.

Definition fetchAllSongs (e : env) (fuel : nat) : M (list value) :=
  fetchAllSongs_loop e fuel 1 [].

(** ** Vocabulary of the statements *)

(** What a call of [redirectLogin] in [w] leaves in [w']: the flag is set,
    and one navigation to the login page is added unless the flag was
    already set. *)
Definition redirected (e : env) (w w' : world) : Prop :=
  ss w' = <[REDIRECTING := "1"]> (ss w) ∧
  navs w' = if decide (ss w !! REDIRECTING = Some "1") then navs w
            else (navs w ++ [login_target e])%list.

(** A step that leaves the flag and the navigations alone. *)
Definition quiet (w w' : world) : Prop := ss w' = ss w ∧ navs w' = navs w.

(** [v.k] when the read does not throw. *)
Definition field (data : value) (k : string) : value :=
  default VUndefined (get_prop data k).

(** [null] and [undefined] have no properties to read. *)
Definition readable (data : value) : bool :=
  match data with
  | VUndefined | VNull => false
  | _ => true
  end.

(** The test of [saveTokens]: [data.refresh_token && data.refresh_expires_at]. *)
Definition has_refresh_fields (data : value) : bool :=
  truthy (field data "refresh_token") && truthy (field data "refresh_expires_at").

(** The writes [saveTokens] asks of [localStorage], in order. *)
Definition token_writes (data : value) : list (string * string) :=
  ([(LS.access, ToString (field data "access_token"));
    (LS.accessExp, ToString (field data "access_expires_at"))] ++
   if has_refresh_fields data
   then [(LS.refresh, ToString (field data "refresh_token"));
         (LS.refreshExp, ToString (field data "refresh_expires_at"))]
   else [])%list.

(** The storage accepts a sequence of writes, one after the other. *)
Fixpoint accepts_all (e : env) (st : gmap string string)
  (writes : list (string * string)) : bool :=
  match writes with
  | [] => true
  | (k, v) :: rest => ls_accepts e st k v && accepts_all e (<[k := v]> st) rest
  end.

Fixpoint write_all (writes : list (string * string)) (st : gmap string string)
  : gmap string string :=
  match writes with
  | [] => st
  | (k, v) :: rest => write_all rest (<[k := v]> st)
  end.

(** A sequence of [setItem]: all of them accepted, or the first refusal
    throws. *)
Fixpoint setItems (e : env) (writes : list (string * string)) : M unit :=
  match writes with
  | [] => mret tt
  | (k, v) :: rest => setItem e k v;; setItems e rest
  end.

(** The world once [fetch] has been handed [rq]. *)
Definition sent (rq : request) (w : world) : world :=
  World (ls w) (ss w) (navs w) (reqs w ++ [rq])%list.

(** The storage once [clearTokens] has run. *)
Definition cleared (st : gmap string string) : gmap string string :=
  delete LS.me (delete LS.refreshExp (delete LS.refresh (delete LS.accessExp
    (delete LS.access st)))).

(** The world when the erase of [onLogout] starts: the logout request has
    been sent if there was an access token. *)
Definition logout_sent (e : env) (w : world) : world :=
  if String.eqb (getAT w) "" then w else sent (logout_request e (getAT w)) w.

(** The steps of the session code that change the browser.  A call that
    overlaps other calls runs as a sequence of such steps: the part of
    [ensureAccessToken] after its [await] is a [redirectLogin] or a
    [saveTokens], and so on. *)
Inductive action : Type :=
| CallRedirectLogin
| CallEnsureAccessToken
| CallFetchMe (accessToken : value)
| CallOnLogout
| CallSaveTokens (data : value)
| CallClearTokens.

Definition perform (e : env) (w : world) (a : action) : world :=
  match a with
  | CallRedirectLogin => after (redirectLogin e w)
  | CallEnsureAccessToken => after (ensureAccessToken e w)
  | CallFetchMe accessToken => after (fetchMe e accessToken w)
  | CallOnLogout => after (onLogout e w)
  | CallSaveTokens data => after (saveTokens e data w)
  | CallClearTokens => after (clearTokens w)
  end.

Definition perform_all (e : env) (w : world) (l : list action) : world :=
  foldl (perform e) w l.

(** The answers of the song endpoint, page by page. *)
Definition page_answer (e : env) (page : Z) : exchange := net e (songs_request e page).

(** A page that makes the loop go on: success, and an array of at least
    [PAGE_SIZE] rows. *)
Definition full_page (x : exchange) : bool :=
  match x with
  | Response st (Some (VArr xs)) => ok st && negb (Z.of_nat (length xs) <? PAGE_SIZE)
  | _ => false
  end.

(** A page that ends the loop normally: success, and a body that is not an
    array, or an array of fewer than [PAGE_SIZE] rows. *)
Definition last_page (x : exchange) : bool :=
  match x with
  | Response st (Some (VArr xs)) => ok st && (Z.of_nat (length xs) <? PAGE_SIZE)
  | Response st (Some _) => ok st
  | _ => false
  end.

(** The rows a page contributes. *)
Definition rows_of (x : exchange) : list value :=
  match x with
  | Response _ (Some (VArr xs)) => xs
  | _ => []
  end.

(** How the loop ends on a page that is not full: with the rows gathered
    so far and the rows of the page, or with an exception. *)
Definition page_end (x : exchange) (all : list value) : outcome (list value) :=
  match x with
  | Rejected => Throw NetworkError
  | Response st body =>
      if ok st then
        match body with
        | Some rows => Return (all ++ rows_of (Response st (Some rows)))%list
        | None => Throw SyntaxError
        end
      else Throw (Error ("/api/songs failed: " +:+ string_of_Z st))
  end.

(** The [k] pages from [page] on. *)
Definition pages_from (page : Z) (k : nat) : list Z :=
  map (fun i => page + Z.of_nat i) (seq 0 k).

(** The rows of the [k] pages from [page] on, in page order. *)
Definition rows_upto (e : env) (page : Z) (k : nat) : list value :=
  concat (map (fun p => rows_of (page_answer e p)) (pages_from page k)).

(** The world once the [k] pages from [page] on have been requested, in
    page order. *)
Definition requested (e : env) (page : Z) (k : nat) (w : world) : world :=
  World (ls w) (ss w) (navs w)
        (reqs w ++ map (songs_request e) (pages_from page k))%list.

(** The character-wise reading of [escapeHtml]. *)
Definition entity (c : ascii) : string :=
  if Ascii.eqb c "&" then "&amp;"
  else if Ascii.eqb c "<" then "&lt;"
  else if Ascii.eqb c ">" then "&gt;"
  else if Ascii.eqb c "034" then "&quot;"
  else if Ascii.eqb c "'" then "&#039;"
  else String c EmptyString.

Fixpoint concat_map (f : ascii -> string) (s : string) : string :=
  match s with
  | EmptyString => EmptyString
  | String c rest => f c +:+ concat_map f rest
  end.

Fixpoint occurs (c : ascii) (s : string) : bool :=
  match s with
  | EmptyString => false
  | String c' rest => Ascii.eqb c c' || occurs c rest
  end.

(** Every ampersand of [s] starts one of the five entities. *)
Fixpoint ampersands_start_entities (s : string) : bool :=
  match s with
  | EmptyString => true
  | String c rest =>
      (negb (Ascii.eqb c "&")
       || String.prefix "amp;" rest || String.prefix "lt;" rest
       || String.prefix "gt;" rest || String.prefix "quot;" rest
       || String.prefix "#039;" rest)
      && ampersands_start_entities rest
  end.

(** ** Example environments *)

(** A serializer for the examples (strings are printed without escapes). *)
Fixpoint example_stringify (v : value) : string :=
  match v with
  | VUndefined | VNull => "null"
  | VBool true => "true"
  | VBool false => "false"
  | VNum n => string_of_Z n
  | VStr s => DQUOTE +:+ s +:+ DQUOTE
  | VArr xs => "[" +:+ join "," (map example_stringify xs) +:+ "]"
  | VObj fields =>
      "{" +:+ join "," (map (fun kv => DQUOTE +:+ fst kv +:+ DQUOTE +:+ ":" +:+ example_stringify (snd kv))
                            fields) +:+ "}"
  end.

(** A page at clock 1000 whose backend answers every request with [x] and
    whose storage has room. *)
Definition example_env (x : exchange) : env :=
  Env 1000 (fun _ => x) (fun _ _ _ => true) example_stringify
      "http://localhost:8000" "http://localhost:8000"
      (Url "http://localhost/login.html" []).

(** The same page with a full [localStorage]. *)
Definition example_env_full (x : exchange) : env :=
  Env 1000 (fun _ => x) (fun _ _ _ => false) example_stringify
      "http://localhost:8000" "http://localhost:8000"
      (Url "http://localhost/login.html" []).

Definition example_world (items : list (string * string)) (flag : option string) : world :=
  World (list_to_map items)
        (match flag with Some v => {[ REDIRECTING := v ]} | None => ∅ end) [] [].

(** Access token within the leeway, refresh token good for an hour. *)
Definition stale_session : world :=
  example_world [(LS.access, "T1"); (LS.accessExp, "1005");
                 (LS.refresh, "R1"); (LS.refreshExp, "4600");
                 (LS.me, example_stringify (VObj [("username", VStr "henry")]))] None.

(** Both tokens within the leeway. *)
Definition expired_session : world :=
  example_world [(LS.access, "T1"); (LS.accessExp, "1005");
                 (LS.refresh, "R1"); (LS.refreshExp, "1005");
                 (LS.me, example_stringify (VObj [("username", VStr "henry")]))] None.

(** A login without "remember me": a good access token and no refresh
    token. *)
Definition short_session : world :=
  example_world [(LS.access, "T1"); (LS.accessExp, "4600")] None.

(** No access token, refresh token good for an hour. *)
Definition refresh_only_session : world :=
  example_world [(LS.refresh, "R1"); (LS.refreshExp, "4600")] None.

Definition unauthorized : exchange := Response 401 (Some (VObj [("detail", VStr "expired")])).

(** A refresh answer without refresh fields. *)
Definition access_only_answer : exchange :=
  Response 200 (Some (VObj [("access_token", VStr "T2"); ("access_expires_at", VNum 4600)])).

(** A refresh answer with a new refresh token and no expiry for it. *)
Definition no_expiry_answer : exchange :=
  Response 200 (Some (VObj [("access_token", VStr "T2"); ("access_expires_at", VNum 4600);
                            ("refresh_token", VStr "R2")])).

Definition profile_answer : exchange :=
  Response 200 (Some (VObj [("username", VStr "henry")])).

(** A backend that answers the song endpoint page by page: the page number
    is read back from the [page] parameter of the request. *)
Definition example_songs_env (answer : Z -> exchange) : env :=
  Env 1000
      (fun rq => match searchParams_get "page" (u_search (rq_url rq)) with
                 | Some p => answer (default 0 (parseInt p))
                 | None => Rejected
                 end)
      (fun _ _ _ => true) example_stringify
      "http://localhost:8000" "http://localhost:8000"
      (Url "http://localhost/login.html" []).

Definition example_song (id : Z) : value :=
  VObj [("song_id", VNum id); ("title", VStr "Song")].

(** Page 1 holds 200 songs, page 2 holds one, the other pages are empty. *)
Definition two_pages (page : Z) : exchange :=
  if page =? 1 then Response 200 (Some (VArr (repeat (example_song 1) 200)))
  else if page =? 2 then Response 200 (Some (VArr [example_song 2]))
  else Response 200 (Some (VArr [])).

(** Page 1 holds 200 songs, page 2 fails. *)
Definition failing_second_page (page : Z) : exchange :=
  if page =? 1 then Response 200 (Some (VArr (repeat (example_song 1) 200)))
  else if page =? 2 then Response 500 None
  else Response 200 (Some (VArr [])).

(** ** The rest of home.js *)

(** *** [init] and the user bar

    Of the document the session code touches one thing, the user bar: the
    element [#userBar], absent or present, and the name it shows.  The name
    is kept as [injectUserBar] writes it into the markup, escaped. *)
Record page : Type := Page {
  browser : world;
  userBar : option string
}.

(** What [init] reads besides the environment of the session functions:
    [location.pathname] and [JSON.parse] ([None] when it throws). *)
Record document_env : Type := DocumentEnv {
  pathname : string;
  JSON_parse : string -> option value
}.

(** [s.endsWith(suffix)] *)
Fixpoint endsWith (s suffix : string) : bool :=
  String.eqb s suffix
  || match s with
     | EmptyString => false
     | String _ rest => endsWith rest suffix
     end.

(** [a || b] on values. *)
Definition or_else (a b : value) : value := if truthy a then a else b.

(** [x.username || x.email || "User"]; with [x?.username] the reads are the
    same, [undefined] for [null] and [undefined]. *)
Definition display_name (x : value) : value :=
  or_else (or_else (field x "username") (field x "email")) (VStr "User").

Definition injectUserBar (username : value) (p : page) : page :=
  match userBar p with
  | Some _ => p
  | None => Page (browser p) (Some (escapeHtml (or_else username (VStr "User"))))
  end.

(** The first [try] of [init]: the bar is filled from the cached profile;
    anything thrown is dropped. *)
Definition prefill (d : document_env) (p : page) : page :=
  match ls (browser p) !! LS.me, userBar p with
  | Some (String c rest), None =>
      match JSON_parse d (String c rest) with
      | Some meCached => injectUserBar (display_name meCached) p
      | None => p
      end
  | _, _ => p
  end.

(** [sessionStorage.removeItem("auth.redirecting")] *)
Definition clear_redirecting (w : world) : world :=
  World (ls w) (delete REDIRECTING (ss w)) (navs w) (reqs w).

Definition init (d : document_env) (e : env) (p : page) : outcome unit * page :=
  if endsWith (pathname d) "/login.html" || endsWith (pathname d) "login.html"
  then (Return tt, p)
  else
    let bar := userBar (prefill d p) in
    match ensureAccessToken e (browser p) with
    | (Return at_, w1) =>
        if negb (truthy at_) then (Return tt, Page w1 bar)
        else
          match fetchMe e at_ w1 with
          | (Return me, w2) =>
              if negb (truthy me) then (Return tt, Page w2 bar)
              else (Return tt,
                    Page (clear_redirecting w2)
                         (userBar (injectUserBar (display_name me) (Page w2 bar))))
          | (Throw _, w2) => (Return tt, Page (after (redirectLogin e w2)) bar)
          | (OutOfFuel, w2) => (OutOfFuel, Page w2 bar)
          end
    | (Throw x, w1) => (Throw x, Page w1 bar)
    | (OutOfFuel, w1) => (OutOfFuel, Page w1 bar)
    end.

(** A parser for the examples: it knows the text of one profile. *)
Definition example_document (path : string) : document_env :=
  DocumentEnv path
    (fun s => if String.eqb s (example_stringify (VObj [("username", VStr "henry")]))
              then Some (VObj [("username", VStr "henry")])
              else None).

Definition new_profile_answer : exchange :=
  Response 200 (Some (VObj [("username", VStr "Henry <admin>"); ("email", VStr "h@x.org")])).

(** A valid access token and a cached profile, in a page without a bar. *)
Definition returning_session (flag : option string) : page :=
  Page (example_world [(LS.access, "T1"); (LS.accessExp, "4600");
                       (LS.me, example_stringify (VObj [("username", VStr "henry")]))] flag)
       None.

(** A valid access token and no cached profile. *)
Definition first_visit (flag : option string) : page :=
  Page (example_world [(LS.access, "T1"); (LS.accessExp, "4600")] flag) None.

(** The test at the head of [init]: the page is the login page. *)
Definition on_login_page (d : document_env) : bool :=
  endsWith (pathname d) "/login.html" || endsWith (pathname d) "login.html".

(** *** Songs: [fmtDuration], [normalizeSong], [getFallbackSongs] *)

Definition is_digit (c : ascii) : bool :=
  match digit_of c with Some _ => true | None => false end.

(** [/^\d{2}:\d{2}(:\d{2})?$/.test(s)] on the text of [s]: two digits, a
    colon, two digits, and possibly a colon and two more digits, up to the
    end of the input. *)
Definition duration_pattern (s : string) : bool :=
  match s with
  | String a (String b (String ":" (String c (String d rest)))) =>
      is_digit a && is_digit b && is_digit c && is_digit d
      && match rest with
         | EmptyString => true
         | String ":" (String f (String g EmptyString)) => is_digit f && is_digit g
         | _ => false
         end
  | _ => false
  end.

Definition fmtDuration (s : value) : value :=
  if truthy s && duration_pattern (ToString s) then s else or_else s (VStr "").

(** [a ?? b] *)
Definition nullish (v : value) : bool :=
  match v with
  | VUndefined | VNull => true
  | _ => false
  end.

Definition coalesce (a b : value) : value := if nullish a then b else a.

(** [normalizeSong(r, idx)]; reading a property of [null] or [undefined]
    throws: [None].  The names read are no properties of strings, numbers,
    booleans or arrays. *)
Definition normalizeSong (r : value) (idx : Z) : option value :=
  if readable r then
    Some (VObj [
      ("song_id", coalesce (coalesce (field r "song_id") (field r "SongID")) (VNum (idx + 1)));
      ("title", coalesce (coalesce (field r "title") (field r "Title")) (VStr ""));
      ("duration", coalesce (coalesce (field r "duration") (field r "Duration")) VNull);
      ("url_file", coalesce (coalesce (field r "url_file") (field r "URL_File")) VNull);
      ("cover_image_url",
         coalesce (coalesce (field r "cover_image_url") (field r "CoverImageURL")) VNull);
      ("thumbnail_url",
         coalesce (coalesce (field r "thumbnail_url") (field r "ThumbnailURL")) VNull);
      ("genre", coalesce (coalesce (field r "genre") (field r "Genre")) VNull);
      ("language", coalesce (coalesce (field r "language") (field r "Language")) VNull);
      ("lyrics", coalesce (coalesce (field r "lyrics") (field r "Lyrics")) VNull);
      ("spotify_track_id",
         coalesce (coalesce (field r "spotify_track_id") (field r "SpotifyTrackID")) VNull);
      ("spotify_track_uri",
         coalesce (coalesce (field r "spotify_track_uri") (field r "SpotifyTrackURI")) VNull);
      ("spotify_track_url",
         coalesce (coalesce (field r "spotify_track_url") (field r "SpotifyTrackURL")) VNull);
      ("spotify_preview_url",
         coalesce (coalesce (coalesce (coalesce (field r "spotify_preview_url")
                                                (field r "SpotifyPreviewURL"))
                                      (field r "url_file"))
                            (field r "URL_File"))
                  VNull)
    ])
  else None.

(** [raw.map((r, idx) => normalizeSong(r, idx))], from index [idx] on. *)
Fixpoint normalize_from (idx : Z) (raw : list value) : option (list value) :=
  match raw with
  | [] => Some []
  | r :: rest =>
      match normalizeSong r idx with
      | Some song =>
          match normalize_from (idx + 1) rest with
          | Some songs => Some (song :: songs)
          | None => None
          end
      | None => None
      end
  end.

(** [getFallbackSongs()], of the value of [window.__HENRY_SONGS__]. *)
Definition getFallbackSongs (henry_songs : value) : option (list value) :=
  match henry_songs with
  | VArr raw => normalize_from 0 raw
  | _ => Some []
  end.

(** *** The grid: [state], [renderGrid] and the handlers of [initSongs]

    The page is taken to hold the elements the script looks up.  Of a
    render the embedding keeps what is written to the document: the text of
    the page indicator, the two [disabled] flags, the songs whose cards fill
    the grid, whether the empty notice shows, and the list handed to
    [sessionStorage] under [player.last_list] (a refused write is dropped by
    the script).  The sort of [initSongs] is not part of the embedding. *)
Module Grid.

(** The numbers of the grid arithmetic: the integers, [NaN] (out of
    [parseInt], or of [0 / 0]) and [Infinity] (out of a division by zero;
    the two zeros are not told apart). *)
Inductive num : Type :=
| Int (z : Z)
| NaN
| Infinity.

Record state : Type := State {
  allSongs : list value;
  page : Z;
  pageSize : option Z                       (* a result of parseInt: None is NaN *)
}.

Record view : Type := View {
  indicator : string;
  prevDisabled : bool;
  nextDisabled : bool;
  cards : list value;
  emptyShown : bool;
  lastList : option (list value)
}.

(** [Math.max(1, Math.ceil(total / pageSize))] *)
Definition totalPages (total : Z) (size : option Z) : num :=
  match size with
  | None => NaN
  | Some 0 => if total =? 0 then NaN else Infinity
  | Some s => Int (Z.max 1 (- ((- total) / s)))
  end.

(** [p > t], [p >= t] and [p < t] for an integer [p]. *)
Definition gt (p : Z) (t : num) : bool :=
  match t with Int z => z <? p | _ => false end.

Definition ge (p : Z) (t : num) : bool :=
  match t with Int z => z <=? p | _ => false end.

Definition lt (p : Z) (t : num) : bool :=
  match t with Int z => p <? z | NaN => false | Infinity => true end.

Definition num_text (t : num) : string :=
  match t with
  | Int z => string_of_Z z
  | NaN => "NaN"
  | Infinity => "Infinity"
  end.

(** An argument of [slice] as an index into a list of length [len]: [NaN]
    counts as 0, a negative number counts from the end, and the result is
    kept within the list. *)
Definition relative_index (k : option Z) (len : Z) : Z :=
  match k with
  | None => 0
  | Some k => if k <? 0 then Z.max (len + k) 0 else Z.min k len
  end.

(** [xs.slice(start, end)] *)
Definition slice (xs : list value) (start end_ : option Z) : list value :=
  let len := Z.of_nat (length xs) in
  let from := relative_index start len in
  let to := relative_index end_ len in
  take (Z.to_nat (to - from)) (drop (Z.to_nat from) xs).

Definition renderGrid (st : state) : state * view :=
  let total := Z.of_nat (length (allSongs st)) in
  let pages := totalPages total (pageSize st) in
  let page' := if gt (page st) pages
               then match pages with Int z => z | _ => page st end
               else page st in
  let st' := State (allSongs st) page' (pageSize st) in
  let text := "Page " +:+ string_of_Z page' +:+ " / " +:+ num_text pages in
  if total =? 0 then
    (st', View text (page' <=? 1) (ge page' pages) [] true None)
  else
    let start := (fun s => (page' - 1) * s) <$> pageSize st in
    let end_ := match start, pageSize st with
                | Some a, Some s => Some (Z.min (a + s) total)
                | _, _ => None
                end in
    let shown := slice (allSongs st) start end_ in
    (st', View text (page' <=? 1) (ge page' pages) shown false (Some shown)).

(** What happens on the page once the songs are loaded. *)
Inductive event : Type :=
| ChangePageSize (selected : string)        (* the selector takes the value *)
| ClickPrev
| ClickNext.

(** The three listeners of [initSongs]; the view is [None] when the
    listener does not render. *)
Definition handle (st : state) (ev : event) : state * option view :=
  match ev with
  | ChangePageSize v =>
      let size := match parseInt v with
                  | None | Some 0 => 9
                  | Some s => s
                  end in
      let r := renderGrid (State (allSongs st) 1 (Some size)) in
      (fst r, Some (snd r))
  | ClickPrev =>
      if 1 <? page st then
        let r := renderGrid (State (allSongs st) (page st - 1) (pageSize st)) in
        (fst r, Some (snd r))
      else (st, None)
  | ClickNext =>
      if lt (page st) (totalPages (Z.of_nat (length (allSongs st))) (pageSize st)) then
        let r := renderGrid (State (allSongs st) (page st + 1) (pageSize st)) in
        (fst r, Some (snd r))
      else (st, None)
  end.

Definition handle_all (st : state) (evs : list event) : state :=
  foldl (fun s ev => fst (handle s ev)) st evs.

(** The number of pages of [total] songs at [size] songs a page, for a
    size of at least one. *)
Definition page_count (total size : Z) : Z := Z.max 1 (- ((- total) / size)).

(** The state is in order: a page size of at least one, and a page between
    1 and the number of pages. *)
Definition in_range (st : state) : Prop :=
  exists size, pageSize st = Some size ∧ 1 <= size
               ∧ 1 <= page st <= page_count (Z.of_nat (length (allSongs st))) size.

Definition example_songs (n : nat) : list value :=
  map (fun i => example_song (Z.of_nat i + 1)) (seq 0 n).

End Grid.

(** The selector values a listener can meet without leaving the range:
    [parseInt] reads no negative number from them. *)
Definition selectable (ev : Grid.event) : Prop :=
  match ev with
  | Grid.ChangePageSize v => forall z, parseInt v = Some z -> 0 <= z
  | _ => True
  end.

(** * Properties *)

Example parseInt_digits : parseInt "1700000000" = Some 1700000000.
Proof. reflexivity. Qed.
Example parseInt_prefix : parseInt "  -12px" = Some (-12).
Proof. reflexivity. Qed.
Example parseInt_nan : parseInt "soon" = None.
Proof. reflexivity. Qed.
Example ToString_num : ToString (VNum 1700003600) = "1700003600".
Proof. reflexivity. Qed.
Example replaceAll_abc : replaceAll "ab" "-" "abcabab!" = "-c--!".
Proof. reflexivity. Qed.
Example replaceAll_empty : replaceAll "" "-" "abc" = "-a-b-c-".
Proof. reflexivity. Qed.
Example searchParams_set_replaces :
  searchParams_set "from" "home" [("from", "song"); ("next", "1"); ("from", "x")]
  = [("from", "home"); ("next", "1")].
Proof. reflexivity. Qed.
Example searchParams_set_appends :
  searchParams_set "from" "home" [("next", "1")] = [("next", "1"); ("from", "home")].
Proof. reflexivity. Qed.
Example songs_request_url :
  rq_url (songs_request (example_env Rejected) 3)
  = Url "http://localhost:8000/api/songs" [("page", "3"); ("page_size", "200")].
Proof. reflexivity. Qed.

(** ** The monad *)

Lemma bind_return {A B} (m : M A) (f : A -> M B) (w w' : world) (a : A) :
  m w = (Return a, w') -> (m ≫= f) w = f a w'.
Proof. intros H. unfold mbind, M_bind. now rewrite H. Qed.

Lemma bind_throw {A B} (m : M A) (f : A -> M B) (w w' : world) (x : exn) :
  m w = (Throw x, w') -> (m ≫= f) w = (Throw x, w').
Proof. intros H. unfold mbind, M_bind. now rewrite H. Qed.

Lemma try_catch_return {A} (m : M A) (h : exn -> M A) (w w' : world) (a : A) :
  m w = (Return a, w') -> try_catch m h w = (Return a, w').
Proof. intros H. unfold try_catch. now rewrite H. Qed.

Lemma try_catch_throw {A} (m : M A) (h : exn -> M A) (w w' : world) (x : exn) :
  m w = (Throw x, w') -> try_catch m h w = h x w'.
Proof. intros H. unfold try_catch. now rewrite H. Qed.

(** ** [redirectLogin] *)

Lemma redirectLogin_returns (e : env) (w : world) :
  result (redirectLogin e w) = Return tt.
Proof. unfold redirectLogin. now case_decide. Qed.

Lemma redirectLogin_ls (e : env) (w : world) :
  ls (after (redirectLogin e w)) = ls w ∧ reqs (after (redirectLogin e w)) = reqs w.
Proof. unfold redirectLogin. now case_decide. Qed.

Lemma redirectLogin_redirected (e : env) (w : world) :
  redirected e w (after (redirectLogin e w)).
Proof.
  unfold redirected, redirectLogin.
  destruct (decide (ss w !! REDIRECTING = Some "1")) as [Hset | Hunset]; simpl.
  - split; [| reflexivity]. symmetry. now apply insert_id.
  - split; reflexivity.
Qed.

Lemma redirectLogin_eq (e : env) (w : world) :
  redirectLogin e w = (Return tt, after (redirectLogin e w)).
Proof. unfold redirectLogin. now case_decide. Qed.

(** [redirected] only looks at the session storage and the navigations. *)
Lemma redirected_same (e : env) (w1 w2 w' : world) :
  ss w1 = ss w2 -> navs w1 = navs w2 -> redirected e w1 w' -> redirected e w2 w'.
Proof. unfold redirected. intros -> ->. tauto. Qed.

Lemma redirect_then_return {A} (e : env) (a : A) (w : world) :
  (redirectLogin e;; mret a) w = (Return a, after (redirectLogin e w)).
Proof.
  rewrite (bind_return _ _ w (after (redirectLogin e w)) tt); [reflexivity |].
  apply redirectLogin_eq.
Qed.

(** ** [saveTokens] *)

Lemma prop_readable (data : value) (k : string) :
  readable data = true -> prop data k = mret (field data k).
Proof. unfold prop, field. destruct data; simpl; intros H; try discriminate; reflexivity. Qed.

Lemma prop_unreadable (data : value) (k : string) :
  readable data = false -> prop data k = throw TypeError.
Proof. unfold prop. destruct data; simpl; intros H; try discriminate; reflexivity. Qed.

Lemma saveTokens_unreadable (e : env) (data : value) (w : world) :
  readable data = false -> saveTokens e data w = (Throw TypeError, w).
Proof.
  intros H. destruct data; try discriminate H; reflexivity.
Qed.

(** [saveTokens] with the property reads resolved. *)
Lemma saveTokens_readable (e : env) (data : value) :
  readable data = true ->
  saveTokens e data =
    (setItem e LS.access (ToString (field data "access_token"));;
     setItem e LS.accessExp (ToString (field data "access_expires_at"));;
     if truthy (field data "refresh_token") && truthy (field data "refresh_expires_at")
     then setItem e LS.refresh (ToString (field data "refresh_token"));;
          setItem e LS.refreshExp (ToString (field data "refresh_expires_at"))
     else mret tt).
Proof.
  intros H. destruct data; try discriminate H; reflexivity.
Qed.

Lemma setItem_accepted (e : env) (k v : string) (w : world) :
  ls_accepts e (ls w) k v = true -> setItem e k v w = (Return tt, set_ls (insert k v) w).
Proof. intros H. unfold setItem. now rewrite H. Qed.

Lemma setItem_refused (e : env) (k v : string) (w : world) :
  ls_accepts e (ls w) k v = false -> setItem e k v w = (Throw QuotaExceededError, w).
Proof. intros H. unfold setItem. now rewrite H. Qed.

Lemma saveTokens_setItems (e : env) (data : value) (w : world) :
  readable data = true -> saveTokens e data w = setItems e (token_writes data) w.
Proof.
  intros H. rewrite (saveTokens_readable _ _ H). unfold token_writes.
  unfold has_refresh_fields.
  destruct (truthy (field data "refresh_token") && truthy (field data "refresh_expires_at"));
    simpl; unfold mbind, M_bind, mret, M_ret;
    repeat (destruct (setItem _ _ _ _) as [[[] | |] ?]; try reflexivity).
Qed.

Lemma setItems_accepted (e : env) (writes : list (string * string)) (w : world) :
  accepts_all e (ls w) writes = true ->
  setItems e writes w = (Return tt, set_ls (write_all writes) w).
Proof.
  revert w. induction writes as [| [k v] rest IH]; intros w H; simpl in *.
  - destruct w; reflexivity.
  - apply andb_prop in H as [Hk Hrest].
    rewrite (bind_return _ _ _ _ _ (setItem_accepted e k v w Hk)).
    rewrite IH; [reflexivity | exact Hrest].
Qed.

Lemma setItems_refused (e : env) (writes : list (string * string)) (w : world) :
  accepts_all e (ls w) writes = false ->
  exists w', setItems e writes w = (Throw QuotaExceededError, w')
             ∧ ss w' = ss w ∧ navs w' = navs w ∧ reqs w' = reqs w.
Proof.
  revert w. induction writes as [| [k v] rest IH]; intros w H; simpl in *; [discriminate |].
  destruct (ls_accepts e (ls w) k v) eqn:Hk; simpl in H.
  - rewrite (bind_return _ _ _ _ _ (setItem_accepted e k v w Hk)).
    destruct (IH (set_ls (insert k v) w) H) as (w' & -> & ? & ? & ?). eauto.
  - rewrite (bind_throw _ _ _ _ _ (setItem_refused e k v w Hk)). eauto.
Qed.

(** Whatever the storage accepts, a sequence of [setItem] only touches the
    keys it writes, and only [localStorage]. *)
Lemma setItems_frame (e : env) (writes : list (string * string)) (w : world) :
  let w' := after (setItems e writes w) in
  (forall k : string, k ∉ map fst writes -> ls w' !! k = ls w !! k)
  ∧ ss w' = ss w ∧ navs w' = navs w ∧ reqs w' = reqs w.
Proof.
  revert w. induction writes as [| [k v] rest IH]; intros w; simpl.
  - auto.
  - unfold mbind, M_bind, setItem.
    destruct (ls_accepts e (ls w) k v); simpl; [| auto].
    specialize (IH (set_ls (insert k v) w)). simpl in IH.
    destruct IH as (Hls & Hss & Hnavs & Hreqs).
    destruct (setItems e rest (set_ls (insert k v) w)) as [[[] | x |] w'] eqn:Hrest; simpl in *;
      (split; [| auto]); intros k' Hk'; rewrite Hls;
      try (apply lookup_insert_ne; intros ->; apply Hk'; left);
      try (intros Hin; apply Hk'; now right).
Qed.

Lemma saveTokens_never_out_of_fuel (e : env) (data : value) (w : world) :
  result (saveTokens e data w) <> OutOfFuel.
Proof.
  destruct (readable data) eqn:H.
  - rewrite (saveTokens_setItems _ _ _ H).
    destruct (accepts_all e (ls w) (token_writes data)) eqn:Ha.
    + now rewrite (setItems_accepted _ _ _ Ha).
    + destruct (setItems_refused _ _ _ Ha) as (w' & -> & _). discriminate.
  - now rewrite (saveTokens_unreadable _ _ _ H).
Qed.

(** Frame of [saveTokens]: the access leg apart, and the refresh leg when
    the answer carries both refresh fields, nothing is touched. *)
Lemma saveTokens_frame (e : env) (data : value) (w : world) :
  let w' := after (saveTokens e data w) in
  (forall k : string, k ∉ map fst (token_writes data) -> ls w' !! k = ls w !! k)
  ∧ ss w' = ss w ∧ navs w' = navs w ∧ reqs w' = reqs w.
Proof.
  destruct (readable data) eqn:H.
  - rewrite (saveTokens_setItems _ _ _ H). apply setItems_frame.
  - rewrite (saveTokens_unreadable _ _ _ H). simpl. auto.
Qed.

(** ** [fetch] *)

Lemma fetch_rejected (e : env) (rq : request) (w : world) :
  net e rq = Rejected -> fetch e rq w = (Throw NetworkError, sent rq w).
Proof. intros H. unfold fetch. now rewrite H. Qed.

Lemma fetch_response (e : env) (rq : request) (w : world) (st : Z) (body : option value) :
  net e rq = Response st body -> fetch e rq w = (Return (st, body), sent rq w).
Proof. intros H. unfold fetch. now rewrite H. Qed.

(** ** The branches of [ensureAccessToken] *)

Section EnsureAccessToken.
Variables (e : env) (w : world).

Lemma ensure_cached :
  hasValidAT e w = true -> ensureAccessToken e w = (Return (VStr (getAT w)), w).
Proof. intros H. unfold ensureAccessToken. now rewrite H. Qed.

Lemma ensure_no_refresh_token :
  hasValidAT e w = false -> hasValidRT e w = false ->
  ensureAccessToken e w = (Return (VStr ""), after (redirectLogin e w)).
Proof.
  intros Hat Hrt. unfold ensureAccessToken. rewrite Hat, Hrt. simpl.
  apply redirect_then_return.
Qed.

Hypothesis Hat : hasValidAT e w = false.
Hypothesis Hrt : hasValidRT e w = true.

Local Abbreviation rq := (refresh_request e (getRT w)).

Lemma ensure_network_error :
  net e rq = Rejected ->
  ensureAccessToken e w = (Return (VStr ""), after (redirectLogin e (sent rq w))).
Proof.
  intros Hnet. unfold ensureAccessToken. rewrite Hat, Hrt. simpl.
  erewrite try_catch_throw.
  - apply redirect_then_return.
  - apply bind_throw. now apply fetch_rejected.
Qed.

Lemma ensure_refused (st : Z) (body : option value) :
  net e rq = Response st body -> ok st = false ->
  ensureAccessToken e w = (Return (VStr ""), after (redirectLogin e (sent rq w))).
Proof.
  intros Hnet Hok. unfold ensureAccessToken. rewrite Hat, Hrt. simpl.
  erewrite try_catch_return; [reflexivity |].
  erewrite bind_return by (apply fetch_response; exact Hnet).
  simpl. rewrite Hok. simpl. apply redirect_then_return.
Qed.

Lemma ensure_undecodable (st : Z) :
  net e rq = Response st None -> ok st = true ->
  ensureAccessToken e w = (Return (VStr ""), after (redirectLogin e (sent rq w))).
Proof.
  intros Hnet Hok. unfold ensureAccessToken. rewrite Hat, Hrt. simpl.
  erewrite try_catch_throw.
  - apply redirect_then_return.
  - erewrite bind_return by (apply fetch_response; exact Hnet).
    simpl. rewrite Hok. reflexivity.
Qed.

Lemma ensure_saved (st : Z) (data : value) (w' : world) :
  net e rq = Response st (Some data) -> ok st = true ->
  saveTokens e data (sent rq w) = (Return tt, w') ->
  ensureAccessToken e w = (Return (field data "access_token"), w').
Proof.
  intros Hnet Hok Hsave. unfold ensureAccessToken. rewrite Hat, Hrt. simpl.
  erewrite try_catch_return; [reflexivity |].
  erewrite bind_return by (apply fetch_response; exact Hnet).
  simpl. rewrite Hok. simpl.
  erewrite bind_return by reflexivity.
  erewrite bind_return by exact Hsave.
  destruct (readable data) eqn:Hr.
  - now rewrite (prop_readable _ _ Hr).
  - rewrite (saveTokens_unreadable _ _ _ Hr) in Hsave. discriminate.
Qed.

Lemma ensure_not_saved (st : Z) (data : value) (x : exn) (w' : world) :
  net e rq = Response st (Some data) -> ok st = true ->
  saveTokens e data (sent rq w) = (Throw x, w') ->
  ensureAccessToken e w = (Return (VStr ""), after (redirectLogin e w')).
Proof.
  intros Hnet Hok Hsave. unfold ensureAccessToken. rewrite Hat, Hrt. simpl.
  erewrite try_catch_throw.
  - apply redirect_then_return.
  - erewrite bind_return by (apply fetch_response; exact Hnet).
    simpl. rewrite Hok. simpl.
    erewrite bind_return by reflexivity.
    apply bind_throw. exact Hsave.
Qed.

(** The request is issued whatever comes back. *)
Lemma ensure_requests :
  reqs (after (ensureAccessToken e w)) = (reqs w ++ [rq])%list.
Proof.
  destruct (net e rq) as [| st body] eqn:Hnet.
  - rewrite ensure_network_error by exact Hnet. simpl.
    now rewrite (proj2 (redirectLogin_ls _ _)).
  - destruct (ok st) eqn:Hok.
    + destruct body as [data |].
      * pose proof (saveTokens_frame e data (sent rq w)) as (_ & _ & _ & Hreqs).
        pose proof (saveTokens_never_out_of_fuel e data (sent rq w)) as Hfuel.
        destruct (saveTokens e data (sent rq w)) as [[[] | x |] w'] eqn:Hsave;
          simpl in *; [| | congruence].
        -- now rewrite (ensure_saved _ _ _ Hnet Hok Hsave).
        -- rewrite (ensure_not_saved _ _ _ _ Hnet Hok Hsave). simpl.
           now rewrite (proj2 (redirectLogin_ls _ _)).
      * rewrite (ensure_undecodable _ Hnet Hok). simpl.
        now rewrite (proj2 (redirectLogin_ls _ _)).
    + rewrite (ensure_refused _ _ Hnet Hok). simpl.
      now rewrite (proj2 (redirectLogin_ls _ _)).
Qed.
End EnsureAccessToken.

(** ** What a successful [saveTokens] leaves in the storage *)

Lemma setItems_returns (e : env) (writes : list (string * string)) (w : world) :
  result (setItems e writes w) = Return tt ->
  setItems e writes w = (Return tt, set_ls (write_all writes) w).
Proof.
  intros H. destruct (accepts_all e (ls w) writes) eqn:Ha.
  - now apply setItems_accepted.
  - destruct (setItems_refused _ _ _ Ha) as (w' & Hw' & _).
    rewrite Hw' in H. discriminate.
Qed.

Lemma saveTokens_returns (e : env) (data : value) (w : world) :
  result (saveTokens e data w) = Return tt ->
  readable data = true
  ∧ saveTokens e data w = (Return tt, set_ls (write_all (token_writes data)) w).
Proof.
  intros H. destruct (readable data) eqn:Hr.
  - split; [reflexivity |]. rewrite (saveTokens_setItems _ _ _ Hr) in *.
    now apply setItems_returns.
  - rewrite (saveTokens_unreadable _ _ _ Hr) in H. discriminate.
Qed.

Lemma token_writes_lookup (data : value) (st : gmap string string) :
  let st' := write_all (token_writes data) st in
  st' !! LS.access = Some (ToString (field data "access_token"))
  ∧ st' !! LS.accessExp = Some (ToString (field data "access_expires_at"))
  ∧ (if has_refresh_fields data
     then st' !! LS.refresh = Some (ToString (field data "refresh_token"))
          ∧ st' !! LS.refreshExp = Some (ToString (field data "refresh_expires_at"))
     else st' !! LS.refresh = st !! LS.refresh
          ∧ st' !! LS.refreshExp = st !! LS.refreshExp)
  ∧ (forall k : string,
        k <> LS.access -> k <> LS.accessExp -> k <> LS.refresh -> k <> LS.refreshExp ->
        st' !! k = st !! k).
Proof.
  unfold token_writes, has_refresh_fields.
  destruct (truthy (field data "refresh_token") && truthy (field data "refresh_expires_at"));
    simpl; repeat split; intros;
    repeat (first [ rewrite lookup_insert_eq | rewrite lookup_insert_ne by done ]);
    reflexivity.
Qed.

(** ** Getting an access token *)

(** C1 (as amended).  For every cached session state [ensureAccessToken]
    takes one of three ways.  A cached access token that passes the validity
    check is returned as it is, and nothing else happens: no request, no
    write.  Otherwise, without a valid refresh token, the login redirect is
    triggered, the empty string is returned and no request is made.
    Otherwise exactly one request goes to the refresh endpoint.  On a success
    answer that [saveTokens] persists without throwing, the new access token
    and its expiry are stored, the refresh token and its expiry are
    overwritten only when the answer carries both of them with truthy values
    (and are left as they were otherwise), and the [access_token] of the
    answer is returned.  On any failure (network error, non-success status,
    a body that cannot be decoded, or an exception of [saveTokens]) the login
    redirect is triggered and the empty string is returned; on a network
    error or a non-success status the storage is left as it was. *)
Theorem ensureAccessToken_cases (e : env) (w : world) :
  (hasValidAT e w = true ->
     ensureAccessToken e w = (Return (VStr (getAT w)), w))
  ∧ (hasValidAT e w = false -> hasValidRT e w = false ->
       result (ensureAccessToken e w) = Return (VStr "")
       ∧ redirected e w (after (ensureAccessToken e w))
       ∧ ls (after (ensureAccessToken e w)) = ls w
       ∧ reqs (after (ensureAccessToken e w)) = reqs w)
  ∧ (hasValidAT e w = false -> hasValidRT e w = true ->
       reqs (after (ensureAccessToken e w)) = (reqs w ++ [refresh_request e (getRT w)])%list
       ∧ (forall st data,
            net e (refresh_request e (getRT w)) = Response st (Some data) -> ok st = true ->
            result (saveTokens e data (sent (refresh_request e (getRT w)) w)) = Return tt ->
            let w' := after (ensureAccessToken e w) in
            result (ensureAccessToken e w) = Return (field data "access_token")
            ∧ ls w' !! LS.access = Some (ToString (field data "access_token"))
            ∧ ls w' !! LS.accessExp = Some (ToString (field data "access_expires_at"))
            ∧ (if has_refresh_fields data
               then ls w' !! LS.refresh = Some (ToString (field data "refresh_token"))
                    ∧ ls w' !! LS.refreshExp = Some (ToString (field data "refresh_expires_at"))
               else ls w' !! LS.refresh = ls w !! LS.refresh
                    ∧ ls w' !! LS.refreshExp = ls w !! LS.refreshExp)
            ∧ (forall k : string,
                  k <> LS.access -> k <> LS.accessExp ->
                  k <> LS.refresh -> k <> LS.refreshExp -> ls w' !! k = ls w !! k)
            ∧ ss w' = ss w ∧ navs w' = navs w)
       ∧ (net e (refresh_request e (getRT w)) = Rejected
          ∨ (exists st body,
                net e (refresh_request e (getRT w)) = Response st body ∧ ok st = false) ->
            result (ensureAccessToken e w) = Return (VStr "")
            ∧ redirected e w (after (ensureAccessToken e w))
            ∧ ls (after (ensureAccessToken e w)) = ls w)
       ∧ ((exists st, net e (refresh_request e (getRT w)) = Response st None ∧ ok st = true)
          ∨ (exists st data,
                net e (refresh_request e (getRT w)) = Response st (Some data) ∧ ok st = true
                ∧ result (saveTokens e data (sent (refresh_request e (getRT w)) w)) <> Return tt) ->
            result (ensureAccessToken e w) = Return (VStr "")
            ∧ redirected e w (after (ensureAccessToken e w)))).
Proof.
  split; [apply ensure_cached |].
  split.
  - intros Hat Hrt. rewrite (ensure_no_refresh_token _ _ Hat Hrt). simpl.
    split; [reflexivity |]. split; [apply redirectLogin_redirected |].
    apply redirectLogin_ls.
  - intros Hat Hrt. set (rq := refresh_request e (getRT w)).
    split; [now apply ensure_requests |].
    split; [| split].
    + intros st data Hnet Hok Hsave.
      apply saveTokens_returns in Hsave as [_ Hsave].
      rewrite (ensure_saved _ _ Hat Hrt _ _ _ Hnet Hok Hsave). simpl.
      split; [reflexivity |].
      pose proof (token_writes_lookup data (ls w)) as (H1 & H2 & H3 & H4).
      auto 10.
    + intros [Hnet | (st & body & Hnet & Hok)].
      * rewrite (ensure_network_error _ _ Hat Hrt Hnet). simpl.
        split; [reflexivity |].
        split; [| now rewrite (proj1 (redirectLogin_ls _ _))].
        apply (redirected_same e (sent rq w)); [reflexivity .. |].
        apply redirectLogin_redirected.
      * rewrite (ensure_refused _ _ Hat Hrt _ _ Hnet Hok). simpl.
        split; [reflexivity |].
        split; [| now rewrite (proj1 (redirectLogin_ls _ _))].
        apply (redirected_same e (sent rq w)); [reflexivity .. |].
        apply redirectLogin_redirected.
    + intros [(st & Hnet & Hok) | (st & data & Hnet & Hok & Hsave)].
      * rewrite (ensure_undecodable _ _ Hat Hrt _ Hnet Hok). simpl.
        split; [reflexivity |].
        apply (redirected_same e (sent rq w)); [reflexivity .. |].
        apply redirectLogin_redirected.
      * pose proof (saveTokens_frame e data (sent rq w)) as (_ & Hss & Hnavs & _).
        pose proof (saveTokens_never_out_of_fuel e data (sent rq w)) as Hfuel.
        destruct (saveTokens e data (sent rq w)) as [[[] | x |] w'] eqn:Hs;
          simpl in *; try congruence.
        rewrite (ensure_not_saved _ _ Hat Hrt _ _ _ _ Hnet Hok Hs). simpl.
        split; [reflexivity |].
        apply (redirected_same e w'); [assumption .. |].
        apply redirectLogin_redirected.
Qed.

Lemma ensureAccessToken_cases_witness :
  ensureAccessToken (example_env unauthorized) short_session
    = (Return (VStr "T1"), short_session)
  ∧ result (ensureAccessToken (example_env unauthorized) expired_session) = Return (VStr "")
  ∧ result (ensureAccessToken (example_env access_only_answer) refresh_only_session)
      = Return (VStr "T2")
  ∧ ls (after (ensureAccessToken (example_env access_only_answer) refresh_only_session))
      !! LS.refresh = Some "R1"
  ∧ result (ensureAccessToken (example_env unauthorized) stale_session) = Return (VStr "")
  ∧ result (ensureAccessToken (example_env (Response 200 None)) stale_session)
      = Return (VStr "").
Proof.
  split.
  { apply (proj1 (ensureAccessToken_cases (example_env unauthorized) short_session)).
    vm_compute. reflexivity. }
  split.
  { apply (proj1 (proj2 (ensureAccessToken_cases (example_env unauthorized) expired_session)));
      vm_compute; reflexivity. }
  destruct (ensureAccessToken_cases (example_env access_only_answer) refresh_only_session)
    as (_ & _ & Hrefresh).
  destruct Hrefresh as (_ & Hsuccess & _); [vm_compute; reflexivity .. |].
  destruct (Hsuccess 200 (VObj [("access_token", VStr "T2"); ("access_expires_at", VNum 4600)]))
    as (Hresult & _ & _ & Hlegs & _); [vm_compute; reflexivity .. |].
  split; [exact Hresult |].
  split; [exact (proj1 Hlegs) |].
  split.
  { destruct (ensureAccessToken_cases (example_env unauthorized) stale_session)
      as (_ & _ & Hrefresh).
    destruct Hrefresh as (_ & _ & Hfailure & _); [vm_compute; reflexivity .. |].
    apply Hfailure. right. exists 401, (Some (VObj [("detail", VStr "expired")])).
    split; vm_compute; reflexivity. }
  destruct (ensureAccessToken_cases (example_env (Response 200 None)) stale_session)
    as (_ & _ & Hrefresh).
  destruct Hrefresh as (_ & _ & _ & Hthrown); [vm_compute; reflexivity .. |].
  apply Hthrown. left. exists 200. split; vm_compute; reflexivity.
Defined.

(** C1, counterexample to the claim as stated.  The refresh answer carries a
    new refresh token ["R2"] without an expiry: the call succeeds and returns
    the new access token, and the new refresh token is not persisted, the
    cache still holds ["R1"]. *)
Lemma ensureAccessToken_drops_refresh_token_without_expiry :
  hasValidAT (example_env no_expiry_answer) refresh_only_session = false
  ∧ hasValidRT (example_env no_expiry_answer) refresh_only_session = true
  ∧ (exists data,
        net (example_env no_expiry_answer)
            (refresh_request (example_env no_expiry_answer) (getRT refresh_only_session))
          = Response 200 (Some data)
        ∧ ok 200 = true
        ∧ get_prop data "refresh_token" = Some (VStr "R2"))
  ∧ result (ensureAccessToken (example_env no_expiry_answer) refresh_only_session)
      = Return (VStr "T2")
  ∧ ls (after (ensureAccessToken (example_env no_expiry_answer) refresh_only_session))
      !! LS.refresh = Some "R1"
  ∧ ls (after (ensureAccessToken (example_env no_expiry_answer) refresh_only_session))
      !! LS.refresh <> Some "R2".
Proof.
  split; [vm_compute; reflexivity |].
  split; [vm_compute; reflexivity |].
  split; [eexists; repeat split; vm_compute; reflexivity |].
  split; [vm_compute; reflexivity |].
  split; [vm_compute; reflexivity |].
  vm_compute. discriminate.
Qed.

(** ** [fetchMe], [clearTokens], [onLogout] *)

Section FetchMe.
Variables (e : env) (accessToken : value) (w : world).

Local Abbreviation rq := (me_request e accessToken).

Lemma fetchMe_network_error :
  net e rq = Rejected -> fetchMe e accessToken w = (Throw NetworkError, sent rq w).
Proof. intros Hnet. unfold fetchMe. apply bind_throw. now apply fetch_rejected. Qed.

Lemma fetchMe_refused (st : Z) (body : option value) :
  net e rq = Response st body -> ok st = false ->
  fetchMe e accessToken w = (Return VNull, after (redirectLogin e (sent rq w))).
Proof.
  intros Hnet Hok. unfold fetchMe.
  erewrite bind_return by (apply fetch_response; exact Hnet).
  simpl. rewrite Hok. simpl. apply redirect_then_return.
Qed.

Lemma fetchMe_undecodable (st : Z) :
  net e rq = Response st None -> ok st = true ->
  fetchMe e accessToken w = (Throw SyntaxError, sent rq w).
Proof.
  intros Hnet Hok. unfold fetchMe.
  erewrite bind_return by (apply fetch_response; exact Hnet).
  simpl. rewrite Hok. reflexivity.
Qed.

Lemma fetchMe_profile (st : Z) (me : value) :
  net e rq = Response st (Some me) -> ok st = true ->
  fetchMe e accessToken w =
    (Return me,
     if ls_accepts e (ls w) LS.me (JSON_stringify e me)
     then set_ls (insert LS.me (JSON_stringify e me)) (sent rq w)
     else sent rq w).
Proof.
  intros Hnet Hok. unfold fetchMe.
  erewrite bind_return by (apply fetch_response; exact Hnet).
  simpl. rewrite Hok. simpl.
  erewrite bind_return by reflexivity.
  unfold mbind, M_bind, try_catch, setItem. simpl.
  destruct (ls_accepts e (ls w) LS.me (JSON_stringify e me)); reflexivity.
Qed.
End FetchMe.

Lemma clearTokens_eq (w : world) : clearTokens w = (Return tt, set_ls cleared w).
Proof. destruct w. reflexivity. Qed.

Lemma cleared_lookup (st : gmap string string) :
  cleared st !! LS.access = None
  ∧ cleared st !! LS.accessExp = None
  ∧ cleared st !! LS.refresh = None
  ∧ cleared st !! LS.refreshExp = None
  ∧ cleared st !! LS.me = None
  ∧ (forall k : string,
        k <> LS.access -> k <> LS.accessExp -> k <> LS.refresh ->
        k <> LS.refreshExp -> k <> LS.me -> cleared st !! k = st !! k).
Proof.
  unfold cleared. repeat split; intros;
    repeat (first [ rewrite lookup_delete_eq | rewrite lookup_delete_ne by done ]);
    reflexivity.
Qed.

Lemma onLogout_eq (e : env) (w : world) :
  onLogout e w = (Return tt, after (redirectLogin e (set_ls cleared (logout_sent e w)))).
Proof.
  unfold onLogout, logout_sent.
  erewrite bind_return by reflexivity.
  assert (Hbest :
    try_catch
      (if negb (String.eqb (getAT w) "")
       then fetch e (logout_request e (getAT w));; mret tt else mret tt)
      (fun _ => mret tt) w
    = (Return tt, if String.eqb (getAT w) "" then w
                  else sent (logout_request e (getAT w)) w)).
  { destruct (String.eqb (getAT w) ""); simpl; [reflexivity |].
    unfold try_catch, mbind, M_bind, fetch.
    destruct (net e (logout_request e (getAT w))); reflexivity. }
  erewrite bind_return by exact Hbest.
  erewrite bind_return by apply clearTokens_eq.
  apply redirectLogin_eq.
Qed.

(** ** The validity checks *)

Lemma valid_iff (tok : string) (exp : option Z) (limit : Z) :
  negb (String.eqb tok "") && num_gt exp limit = true
  <-> tok <> "" ∧ exists x, exp = Some x ∧ x > limit.
Proof.
  rewrite andb_true_iff, negb_true_iff, String.eqb_neq.
  split; intros [Htok Hexp]; (split; [exact Htok |]).
  - destruct exp as [x |]; simpl in Hexp; [| discriminate].
    exists x. split; [reflexivity |]. apply Z.ltb_lt in Hexp. lia.
  - destruct Hexp as (x & -> & Hx). simpl. apply Z.ltb_lt. lia.
Qed.

Lemma invalid_of_expiry (tok : string) (exp : option Z) (limit : Z) :
  (forall x, exp = Some x -> x <= limit) ->
  negb (String.eqb tok "") && num_gt exp limit = false.
Proof.
  intros H. apply not_true_iff_false. rewrite valid_iff.
  intros (_ & x & Hx & Hgt). specialize (H x Hx). lia.
Qed.

Lemma invalid_of_empty (exp : option Z) (limit : Z) :
  negb (String.eqb "" "") && num_gt exp limit = false.
Proof. reflexivity. Qed.

(** With a request on its way the token returned is the one of the answer,
    or the empty string. *)
Lemma ensure_refresh_result (e : env) (w : world) :
  hasValidAT e w = false -> hasValidRT e w = true ->
  result (ensureAccessToken e w) = Return (VStr "")
  ∨ exists st data,
      net e (refresh_request e (getRT w)) = Response st (Some data) ∧ ok st = true
      ∧ result (ensureAccessToken e w) = Return (field data "access_token").
Proof.
  intros Hat Hrt. set (rq := refresh_request e (getRT w)).
  destruct (net e rq) as [| st body] eqn:Hnet.
  - left. now rewrite (ensure_network_error _ _ Hat Hrt Hnet).
  - destruct (ok st) eqn:Hok.
    + destruct body as [data |].
      * pose proof (saveTokens_never_out_of_fuel e data (sent rq w)) as Hfuel.
        destruct (saveTokens e data (sent rq w)) as [[[] | x |] w'] eqn:Hsave;
          simpl in *; [| | congruence].
        -- right. exists st, data.
           now rewrite (ensure_saved _ _ Hat Hrt _ _ _ Hnet Hok Hsave).
        -- left. now rewrite (ensure_not_saved _ _ Hat Hrt _ _ _ _ Hnet Hok Hsave).
      * left. now rewrite (ensure_undecodable _ _ Hat Hrt _ Hnet Hok).
    + left. now rewrite (ensure_refused _ _ Hat Hrt _ _ Hnet Hok).
Qed.

(** C4 (as amended).  The cached access token is valid exactly when it is
    not empty and its expiry, as [parseInt] reads it from the storage, is
    greater than the clock plus 15 seconds.  When the expiry is at most the
    clock plus 15 seconds, [ensureAccessToken] does not return the cached
    token directly: with a valid refresh token it calls the refresh endpoint
    and returns the token of the answer or the empty string; without one it
    makes no request, triggers the login redirect and returns the empty
    string. *)
Theorem access_token_leeway (e : env) (w : world) :
  (hasValidAT e w = true
   <-> getAT w <> "" ∧ exists x, getATExp w = Some x ∧ x > now e + 15)
  ∧ (forall x, getATExp w = Some x -> x <= now e + 15 ->
       hasValidAT e w = false
       ∧ (hasValidRT e w = true ->
            reqs (after (ensureAccessToken e w))
              = (reqs w ++ [refresh_request e (getRT w)])%list
            ∧ (result (ensureAccessToken e w) = Return (VStr "")
               ∨ exists st data,
                   net e (refresh_request e (getRT w)) = Response st (Some data)
                   ∧ ok st = true
                   ∧ result (ensureAccessToken e w) = Return (field data "access_token")))
       ∧ (hasValidRT e w = false ->
            result (ensureAccessToken e w) = Return (VStr "")
            ∧ reqs (after (ensureAccessToken e w)) = reqs w
            ∧ redirected e w (after (ensureAccessToken e w)))).
Proof.
  split; [apply valid_iff |].
  intros x Hx Hle.
  assert (Hat : hasValidAT e w = false).
  { apply invalid_of_expiry. intros y Hy. congruence. }
  split; [exact Hat |]. split.
  - intros Hrt. split; [now apply ensure_requests | now apply ensure_refresh_result].
  - intros Hrt. rewrite (ensure_no_refresh_token _ _ Hat Hrt). simpl.
    split; [reflexivity |]. split; [apply redirectLogin_ls | apply redirectLogin_redirected].
Qed.

Lemma access_token_leeway_witness :
  hasValidAT (example_env access_only_answer) stale_session = false
  ∧ reqs (after (ensureAccessToken (example_env access_only_answer) stale_session))
      = [refresh_request (example_env access_only_answer) "R1"]
  ∧ result (ensureAccessToken (example_env unauthorized) expired_session) = Return (VStr "").
Proof.
  destruct (proj2 (access_token_leeway (example_env access_only_answer) stale_session) 1005)
    as (Hat & Hrefresh & _); [vm_compute; reflexivity | vm_compute; discriminate |].
  split; [exact Hat |].
  split; [apply Hrefresh; vm_compute; reflexivity |].
  destruct (proj2 (access_token_leeway (example_env unauthorized) expired_session) 1005)
    as (_ & _ & Hredirect); [vm_compute; reflexivity | vm_compute; discriminate |].
  apply Hredirect. vm_compute. reflexivity.
Defined.

(** C4, counterexample to the claim as stated.  The access token expires 5
    seconds from now, and so does the refresh token: [ensureAccessToken]
    attempts no refresh, no request leaves the page, it redirects to the
    login page and returns the empty string. *)
Lemma ensureAccessToken_within_leeway_without_refresh :
  getATExp expired_session = Some (now (example_env access_only_answer) + 5)
  ∧ getRT expired_session = "R1"
  ∧ reqs (after (ensureAccessToken (example_env access_only_answer) expired_session)) = []
  ∧ result (ensureAccessToken (example_env access_only_answer) expired_session)
      = Return (VStr "")
  ∧ navs (after (ensureAccessToken (example_env access_only_answer) expired_session))
      = [login_target (example_env access_only_answer)].
Proof. repeat split; vm_compute; reflexivity. Qed.

(** C7 (as amended).  When the cached access token is not valid and no
    refresh token is cached, or the cached one is expired (its expiry is not
    greater than the clock plus 15 seconds), [ensureAccessToken] triggers
    the login redirect and returns the empty string; no request is made and
    the storage is left as it was. *)
Theorem ensureAccessToken_without_valid_refresh_token (e : env) (w : world) :
  hasValidAT e w = false ->
  getRT w = "" ∨ (forall x, getRTExp w = Some x -> x <= now e + 15) ->
  result (ensureAccessToken e w) = Return (VStr "")
  ∧ redirected e w (after (ensureAccessToken e w))
  ∧ reqs (after (ensureAccessToken e w)) = reqs w
  ∧ ls (after (ensureAccessToken e w)) = ls w.
Proof.
  intros Hat Hno.
  assert (Hrt : hasValidRT e w = false).
  { unfold hasValidRT. destruct Hno as [-> | Hexp];
      [apply invalid_of_empty | now apply invalid_of_expiry]. }
  rewrite (ensure_no_refresh_token _ _ Hat Hrt). simpl.
  split; [reflexivity |]. split; [apply redirectLogin_redirected |].
  split; apply redirectLogin_ls.
Qed.

Lemma ensureAccessToken_without_valid_refresh_token_witness :
  result (ensureAccessToken (example_env unauthorized) expired_session) = Return (VStr "")
  ∧ reqs (after (ensureAccessToken (example_env unauthorized) expired_session)) = [].
Proof.
  destruct (ensureAccessToken_without_valid_refresh_token
              (example_env unauthorized) expired_session) as (Hresult & _ & Hreqs & _).
  - vm_compute. reflexivity.
  - right. intros x Hx. vm_compute in Hx. injection Hx as <-. vm_compute. discriminate.
  - split; [exact Hresult | exact Hreqs].
Defined.

(** C7, counterexample to the claim as stated.  After a login without
    "remember me" no refresh token is cached; while the access token is
    valid, [ensureAccessToken] returns it and triggers no redirect. *)
Lemma ensureAccessToken_valid_access_token_without_refresh_token :
  ls short_session !! LS.refresh = None
  ∧ getRT short_session = ""
  ∧ hasValidRT (example_env unauthorized) short_session = false
  ∧ result (ensureAccessToken (example_env unauthorized) short_session) = Return (VStr "T1")
  ∧ result (ensureAccessToken (example_env unauthorized) short_session) <> Return (VStr "")
  ∧ navs (after (ensureAccessToken (example_env unauthorized) short_session)) = []
  ∧ ss (after (ensureAccessToken (example_env unauthorized) short_session)) !! REDIRECTING
      = None.
Proof.
  repeat split; try (vm_compute; reflexivity). vm_compute. discriminate.
Qed.

(** ** Refresh answers without refresh fields *)

Lemma lacking_refresh_fields (data : value) :
  get_prop data "refresh_token" = Some VUndefined
  ∨ get_prop data "refresh_expires_at" = Some VUndefined ->
  readable data = true ∧ has_refresh_fields data = false.
Proof.
  unfold has_refresh_fields, field.
  intros [H | H]; (split; [destruct data; try discriminate H; reflexivity |]);
    rewrite H; simpl; [reflexivity | apply andb_false_r].
Qed.

Lemma token_writes_access_only (data : value) :
  has_refresh_fields data = false ->
  map fst (token_writes data) = [LS.access; LS.accessExp].
Proof. intros H. unfold token_writes. now rewrite H. Qed.

(** C5 (as amended).  A refresh is under way (no valid access token, a
    valid refresh token) and the answer is a success whose body lacks the
    refresh token or its expiry.  Persisting the answer writes the access
    token and its expiry and nothing else: every other key, the cached
    refresh token and its expiry among them, keeps its value, in
    [saveTokens] and so in [ensureAccessToken].  When [localStorage] accepts
    the writes ([saveTokens] returns), the two access keys hold the fields
    of the answer and [ensureAccessToken] returns its [access_token] field;
    when a write is refused, the exception is caught, the login redirect is
    triggered and the empty string is returned. *)
Theorem refresh_answer_without_refresh_token
  (e : env) (w : world) (st : Z) (data : value) :
  hasValidAT e w = false ->
  hasValidRT e w = true ->
  net e (refresh_request e (getRT w)) = Response st (Some data) ->
  ok st = true ->
  get_prop data "refresh_token" = Some VUndefined
  ∨ get_prop data "refresh_expires_at" = Some VUndefined ->
  (forall (w0 : world) (k : string), k <> LS.access -> k <> LS.accessExp ->
     ls (after (saveTokens e data w0)) !! k = ls w0 !! k)
  ∧ ls (after (ensureAccessToken e w)) !! LS.refresh = ls w !! LS.refresh
  ∧ ls (after (ensureAccessToken e w)) !! LS.refreshExp = ls w !! LS.refreshExp
  ∧ (forall k : string, k <> LS.access -> k <> LS.accessExp ->
       ls (after (ensureAccessToken e w)) !! k = ls w !! k)
  ∧ (result (saveTokens e data (sent (refresh_request e (getRT w)) w)) = Return tt ->
       result (ensureAccessToken e w) = Return (field data "access_token")
       ∧ ls (after (ensureAccessToken e w)) !! LS.access
           = Some (ToString (field data "access_token"))
       ∧ ls (after (ensureAccessToken e w)) !! LS.accessExp
           = Some (ToString (field data "access_expires_at")))
  ∧ (result (saveTokens e data (sent (refresh_request e (getRT w)) w)) <> Return tt ->
       result (ensureAccessToken e w) = Return (VStr "")
       ∧ redirected e w (after (ensureAccessToken e w))).
Proof.
  intros Hat Hrt Hnet Hok Hlacks.
  destruct (lacking_refresh_fields _ Hlacks) as [Hreadable Hnone].
  set (rq := refresh_request e (getRT w)) in *.
  assert (Hsave : forall (w0 : world) (k : string), k <> LS.access -> k <> LS.accessExp ->
                    ls (after (saveTokens e data w0)) !! k = ls w0 !! k).
  { intros w0 k Hk1 Hk2.
    apply (proj1 (saveTokens_frame e data w0)).
    rewrite (token_writes_access_only _ Hnone).
    intros Hin. apply elem_of_cons in Hin as [-> | Hin]; [congruence |].
    apply elem_of_cons in Hin as [-> | Hin]; [congruence |].
    now apply elem_of_nil in Hin. }
  assert (Hframe : forall k : string, k <> LS.access -> k <> LS.accessExp ->
                     ls (after (ensureAccessToken e w)) !! k = ls w !! k).
  { intros k Hk1 Hk2.
    pose proof (saveTokens_never_out_of_fuel e data (sent rq w)) as Hfuel.
    specialize (Hsave (sent rq w) k Hk1 Hk2).
    destruct (saveTokens e data (sent rq w)) as [[[] | x |] w'] eqn:Hs;
      simpl in *; [| | congruence].
    - now rewrite (ensure_saved _ _ Hat Hrt _ _ _ Hnet Hok Hs).
    - rewrite (ensure_not_saved _ _ Hat Hrt _ _ _ _ Hnet Hok Hs). simpl.
      now rewrite (proj1 (redirectLogin_ls _ _)). }
  split; [exact Hsave |].
  split; [now apply Hframe |].
  split; [now apply Hframe |].
  split; [exact Hframe |].
  split.
  - intros Hreturned. apply saveTokens_returns in Hreturned as [_ Hs].
    rewrite (ensure_saved _ _ Hat Hrt _ _ _ Hnet Hok Hs). simpl.
    pose proof (token_writes_lookup data (ls w)) as (H1 & H2 & _).
    auto.
  - intros Hrefused.
    pose proof (saveTokens_frame e data (sent rq w)) as (_ & Hss & Hnavs & _).
    pose proof (saveTokens_never_out_of_fuel e data (sent rq w)) as Hfuel.
    destruct (saveTokens e data (sent rq w)) as [[[] | x |] w'] eqn:Hs;
      simpl in *; try congruence.
    rewrite (ensure_not_saved _ _ Hat Hrt _ _ _ _ Hnet Hok Hs). simpl.
    split; [reflexivity |].
    apply (redirected_same e w'); [assumption .. |].
    apply redirectLogin_redirected.
Qed.

(** The scenario of the specification: no access token, a valid refresh
    token ["R1"], and the answer [{access_token: "T2", access_expires_at:
    4600}].  The returned token is ["T2"] and the refresh leg still holds
    ["R1"] and ["4600"]. *)
Lemma refresh_answer_without_refresh_token_witness :
  result (ensureAccessToken (example_env access_only_answer) refresh_only_session)
    = Return (VStr "T2")
  ∧ ls (after (ensureAccessToken (example_env access_only_answer) refresh_only_session))
      !! LS.refresh = Some "R1"
  ∧ ls (after (ensureAccessToken (example_env access_only_answer) refresh_only_session))
      !! LS.refreshExp = Some "4600"
  ∧ ls (after (ensureAccessToken (example_env access_only_answer) refresh_only_session))
      !! LS.access = Some "T2".
Proof.
  destruct (refresh_answer_without_refresh_token
              (example_env access_only_answer) refresh_only_session 200
              (VObj [("access_token", VStr "T2"); ("access_expires_at", VNum 4600)]))
    as (_ & Hrt & Hrtexp & _ & Hreturned & _);
    [vm_compute; reflexivity .. | left; vm_compute; reflexivity |].
  destruct Hreturned as (Hresult & Haccess & _); [vm_compute; reflexivity |].
  split; [exact Hresult |].
  split; [exact Hrt |].
  split; [exact Hrtexp | exact Haccess].
Defined.

(** C5, counterexample to the claim as stated.  The same scenario with a
    full [localStorage]: the answer is a success without refresh fields, the
    write of the access token is refused, and [ensureAccessToken] returns
    the empty string, not the [access_token] field ["T2"] of the answer.
    The cached refresh token and its expiry are left as they were. *)
Lemma refresh_answer_with_full_storage :
  let e := example_env_full access_only_answer in
  hasValidAT e refresh_only_session = false
  ∧ hasValidRT e refresh_only_session = true
  ∧ (exists data,
        net e (refresh_request e (getRT refresh_only_session)) = Response 200 (Some data)
        ∧ ok 200 = true
        ∧ get_prop data "refresh_token" = Some VUndefined
        ∧ get_prop data "access_token" = Some (VStr "T2"))
  ∧ result (ensureAccessToken e refresh_only_session) = Return (VStr "")
  ∧ result (ensureAccessToken e refresh_only_session) <> Return (VStr "T2")
  ∧ ls (after (ensureAccessToken e refresh_only_session)) !! LS.refresh = Some "R1"
  ∧ ls (after (ensureAccessToken e refresh_only_session)) !! LS.refreshExp = Some "4600"
  ∧ navs (after (ensureAccessToken e refresh_only_session)) = [login_target e].
Proof.
  cbv zeta.
  split; [vm_compute; reflexivity |].
  split; [vm_compute; reflexivity |].
  split; [eexists; repeat split; vm_compute; reflexivity |].
  split; [vm_compute; reflexivity |].
  split; [vm_compute; discriminate |].
  repeat split; vm_compute; reflexivity.
Qed.

(** ** Logout and the fate of the cache on failures *)

(** C3 (as amended).  From every starting state and whatever becomes of the
    logout request (a network error and any status alike), [onLogout]
    returns, the five [localStorage] keys (the two token legs, their two
    expiries, the cached profile) are removed, the other keys keep their
    values, and then the login redirect is triggered.  The redirect flag is
    not cleared: when [onLogout] returns it is set.  The logout request is
    sent only when an access token is cached. *)
Theorem onLogout_erases_tokens (e : env) (w : world) :
  result (onLogout e w) = Return tt
  ∧ ls (after (onLogout e w)) !! LS.access = None
  ∧ ls (after (onLogout e w)) !! LS.accessExp = None
  ∧ ls (after (onLogout e w)) !! LS.refresh = None
  ∧ ls (after (onLogout e w)) !! LS.refreshExp = None
  ∧ ls (after (onLogout e w)) !! LS.me = None
  ∧ (forall k : string,
        k <> LS.access -> k <> LS.accessExp -> k <> LS.refresh ->
        k <> LS.refreshExp -> k <> LS.me ->
        ls (after (onLogout e w)) !! k = ls w !! k)
  ∧ redirected e w (after (onLogout e w))
  ∧ ss (after (onLogout e w)) !! REDIRECTING = Some "1"
  ∧ reqs (after (onLogout e w))
      = if String.eqb (getAT w) "" then reqs w
        else (reqs w ++ [logout_request e (getAT w)])%list.
Proof.
  rewrite onLogout_eq. simpl.
  set (w1 := set_ls cleared (logout_sent e w)).
  assert (Hls : ls w1 = cleared (ls w)).
  { unfold w1, logout_sent. now destruct (String.eqb (getAT w) ""). }
  assert (Hss : ss w1 = ss w ∧ navs w1 = navs w).
  { unfold w1, logout_sent. now destruct (String.eqb (getAT w) ""). }
  pose proof (redirectLogin_redirected e w1) as Hred.
  pose proof (redirectLogin_ls e w1) as [Hls' Hreqs'].
  pose proof (cleared_lookup (ls w)) as (H1 & H2 & H3 & H4 & H5 & H6).
  rewrite Hls', Hls, Hreqs'.
  assert (Hred' : redirected e w (after (redirectLogin e w1))).
  { apply (redirected_same e w1); tauto. }
  repeat (split; [first [reflexivity | assumption] |]).
  split; [| unfold w1, logout_sent; now destruct (String.eqb (getAT w) "")].
  rewrite (proj1 Hred'). apply lookup_insert_eq.
Qed.

(** C3, counterexample to the claim as stated.  The redirect flag is set
    when logout starts (a redirect was asked earlier in the tab).  After
    [onLogout] the five [localStorage] keys are gone, the flag is still
    set, and no navigation was made.  Started without the flag, [onLogout]
    leaves it set. *)
Lemma onLogout_keeps_redirect_flag :
  let e := example_env Rejected in
  let w := example_world [(LS.access, "T1"); (LS.accessExp, "4600")] (Some "1") in
  let w0 := example_world [(LS.access, "T1"); (LS.accessExp, "4600")] None in
  ss w !! REDIRECTING = Some "1"
  ∧ ls (after (onLogout e w)) !! LS.access = None
  ∧ ss (after (onLogout e w)) !! REDIRECTING = Some "1"
  ∧ ss (after (onLogout e w)) !! REDIRECTING <> None
  ∧ navs (after (onLogout e w)) = []
  ∧ ss w0 !! REDIRECTING = None
  ∧ ss (after (onLogout e w0)) !! REDIRECTING = Some "1".
Proof.
  cbv zeta. repeat split; try (vm_compute; reflexivity). vm_compute. discriminate.
Qed.

(** C2 (as amended).  On an irrecoverable auth failure the cached session
    state is not erased: [localStorage] is left exactly as it was, and the
    login redirect is triggered.  This holds when the refresh token is
    missing or expired, when the refresh call is rejected by the server, and
    when the profile fetch is rejected.  The cache is erased by [onLogout]
    only. *)
Theorem auth_failure_keeps_cache (e : env) (w : world) :
  (hasValidAT e w = false -> hasValidRT e w = false ->
     ls (after (ensureAccessToken e w)) = ls w
     ∧ redirected e w (after (ensureAccessToken e w)))
  ∧ (hasValidAT e w = false -> hasValidRT e w = true ->
     forall st body,
       net e (refresh_request e (getRT w)) = Response st body -> ok st = false ->
       ls (after (ensureAccessToken e w)) = ls w
       ∧ redirected e w (after (ensureAccessToken e w)))
  ∧ (forall accessToken st body,
       net e (me_request e accessToken) = Response st body -> ok st = false ->
       ls (after (fetchMe e accessToken w)) = ls w
       ∧ redirected e w (after (fetchMe e accessToken w)))
  ∧ ls (after (onLogout e w)) = cleared (ls w).
Proof.
  split; [| split; [| split]].
  - intros Hat Hrt. rewrite (ensure_no_refresh_token _ _ Hat Hrt). simpl.
    split; [apply redirectLogin_ls | apply redirectLogin_redirected].
  - intros Hat Hrt st body Hnet Hok.
    rewrite (ensure_refused _ _ Hat Hrt _ _ Hnet Hok). simpl.
    split; [now rewrite (proj1 (redirectLogin_ls _ _)) |].
    apply (redirected_same e (sent (refresh_request e (getRT w)) w)); [reflexivity .. |].
    apply redirectLogin_redirected.
  - intros accessToken st body Hnet Hok.
    rewrite (fetchMe_refused _ _ _ _ _ Hnet Hok). simpl.
    split; [now rewrite (proj1 (redirectLogin_ls _ _)) |].
    apply (redirected_same e (sent (me_request e accessToken) w)); [reflexivity .. |].
    apply redirectLogin_redirected.
  - rewrite onLogout_eq. simpl. rewrite (proj1 (redirectLogin_ls _ _)).
    unfold logout_sent. now destruct (String.eqb (getAT w) "").
Qed.

Lemma auth_failure_keeps_cache_witness :
  ls (after (ensureAccessToken (example_env unauthorized) expired_session))
    = ls expired_session
  ∧ ls (after (ensureAccessToken (example_env unauthorized) stale_session))
      = ls stale_session
  ∧ ls (after (fetchMe (example_env unauthorized) (VStr "T1") stale_session))
      = ls stale_session.
Proof.
  split.
  { apply (proj1 (auth_failure_keeps_cache (example_env unauthorized) expired_session));
      vm_compute; reflexivity. }
  split.
  { destruct (auth_failure_keeps_cache (example_env unauthorized) stale_session)
      as (_ & Hrefused & _).
    apply (Hrefused eq_refl eq_refl 401 (Some (VObj [("detail", VStr "expired")])));
      vm_compute; reflexivity. }
  destruct (auth_failure_keeps_cache (example_env unauthorized) stale_session)
    as (_ & _ & Hprofile & _).
  apply (Hprofile (VStr "T1") 401 (Some (VObj [("detail", VStr "expired")])));
    vm_compute; reflexivity.
Defined.

(** C2, counterexample to the claim as stated.  Both tokens are expired and
    the profile is cached: after the failed [ensureAccessToken] the five
    keys still hold their values, where [onLogout] removes them.  The same
    holds when the server rejects the refresh call and when it rejects the
    profile fetch. *)
Lemma auth_failure_does_not_erase :
  let e := example_env unauthorized in
  hasValidRT e expired_session = false
  ∧ result (ensureAccessToken e expired_session) = Return (VStr "")
  ∧ ls (after (ensureAccessToken e expired_session)) !! LS.access = Some "T1"
  ∧ ls (after (ensureAccessToken e expired_session)) !! LS.accessExp = Some "1005"
  ∧ ls (after (ensureAccessToken e expired_session)) !! LS.refresh = Some "R1"
  ∧ ls (after (ensureAccessToken e expired_session)) !! LS.refreshExp = Some "1005"
  ∧ ls (after (ensureAccessToken e expired_session)) !! LS.me = ls expired_session !! LS.me
  ∧ ls expired_session !! LS.me <> None
  ∧ ls (after (onLogout e expired_session)) !! LS.access = None
  ∧ ls (after (ensureAccessToken e stale_session)) !! LS.refresh = Some "R1"
  ∧ result (fetchMe e (VStr "T1") stale_session) = Return VNull
  ∧ ls (after (fetchMe e (VStr "T1") stale_session)) !! LS.access = Some "T1".
Proof.
  repeat split; try (vm_compute; reflexivity). vm_compute. discriminate.
Qed.

(** ** The profile *)

(** C8.  For every token, [fetchMe] sends one request, a GET of the profile
    endpoint with the header [Authorization: Bearer <token>].  On a
    non-success status it triggers the login redirect and returns [null].
    On a success status with payload [me] it returns [me]; the payload is
    cached under [auth.me] when the storage accepts the write, and when the
    write is refused the exception is swallowed: the storage is left as it
    was and the payload is returned all the same. *)
Theorem fetchMe_cases (e : env) (accessToken : value) (w : world) :
  reqs (after (fetchMe e accessToken w))
    = (reqs w ++ [Request "GET" (Url (API_BASE e +:+ "/api/me") [])
                    [("Authorization", "Bearer " +:+ ToString accessToken)] None])%list
  ∧ (forall st body,
       net e (me_request e accessToken) = Response st body -> ok st = false ->
       result (fetchMe e accessToken w) = Return VNull
       ∧ redirected e w (after (fetchMe e accessToken w))
       ∧ ls (after (fetchMe e accessToken w)) = ls w)
  ∧ (forall st me,
       net e (me_request e accessToken) = Response st (Some me) -> ok st = true ->
       result (fetchMe e accessToken w) = Return me
       ∧ ls (after (fetchMe e accessToken w))
           = (if ls_accepts e (ls w) LS.me (JSON_stringify e me)
              then <[LS.me := JSON_stringify e me]> (ls w)
              else ls w)
       ∧ ss (after (fetchMe e accessToken w)) = ss w
       ∧ navs (after (fetchMe e accessToken w)) = navs w).
Proof.
  set (rq := me_request e accessToken).
  split; [| split].
  - change (Request "GET" _ _ None) with rq.
    destruct (net e rq) as [| st body] eqn:Hnet.
    + now rewrite (fetchMe_network_error _ _ _ Hnet).
    + destruct (ok st) eqn:Hok.
      * destruct body as [me |].
        -- rewrite (fetchMe_profile _ _ _ _ _ Hnet Hok). simpl.
           now destruct (ls_accepts e (ls w) LS.me (JSON_stringify e me)).
        -- now rewrite (fetchMe_undecodable _ _ _ _ Hnet Hok).
      * rewrite (fetchMe_refused _ _ _ _ _ Hnet Hok). simpl.
        now rewrite (proj2 (redirectLogin_ls _ _)).
  - intros st body Hnet Hok. rewrite (fetchMe_refused _ _ _ _ _ Hnet Hok). simpl.
    split; [reflexivity |].
    split; [| now rewrite (proj1 (redirectLogin_ls _ _))].
    apply (redirected_same e (sent rq w)); [reflexivity .. |].
    apply redirectLogin_redirected.
  - intros st me Hnet Hok. rewrite (fetchMe_profile _ _ _ _ _ Hnet Hok). simpl.
    now destruct (ls_accepts e (ls w) LS.me (JSON_stringify e me)).
Qed.

(** The profile is returned with room in the storage and with a full
    storage; a 401 gives [null]. *)
Lemma fetchMe_cases_witness :
  result (fetchMe (example_env profile_answer) (VStr "T1") short_session)
    = Return (VObj [("username", VStr "henry")])
  ∧ ls (after (fetchMe (example_env profile_answer) (VStr "T1") short_session)) !! LS.me
      = Some (example_stringify (VObj [("username", VStr "henry")]))
  ∧ result (fetchMe (example_env_full profile_answer) (VStr "T1") short_session)
      = Return (VObj [("username", VStr "henry")])
  ∧ ls (after (fetchMe (example_env_full profile_answer) (VStr "T1") short_session))
      = ls short_session
  ∧ result (fetchMe (example_env unauthorized) (VStr "T1") short_session) = Return VNull.
Proof.
  destruct (fetchMe_cases (example_env profile_answer) (VStr "T1") short_session)
    as (_ & _ & Hroom).
  destruct (Hroom 200 (VObj [("username", VStr "henry")])) as (Hresult & Hls & _);
    [vm_compute; reflexivity .. |].
  split; [exact Hresult |].
  split; [rewrite Hls; vm_compute; reflexivity |].
  destruct (fetchMe_cases (example_env_full profile_answer) (VStr "T1") short_session)
    as (_ & _ & Hfull).
  destruct (Hfull 200 (VObj [("username", VStr "henry")])) as (Hresult' & Hls' & _);
    [vm_compute; reflexivity .. |].
  split; [exact Hresult' |].
  split; [exact Hls' |].
  destruct (fetchMe_cases (example_env unauthorized) (VStr "T1") short_session)
    as (_ & Hrefused & _).
  apply (Hrefused 401 (Some (VObj [("detail", VStr "expired")]))); vm_compute; reflexivity.
Defined.

(** ** The one-shot redirect *)

Lemma searchParams_get_set (k v : string) (q : list (string * string)) :
  searchParams_get k (searchParams_set k v q) = Some v.
Proof.
  induction q as [| [k' v'] rest IH]; simpl.
  - now rewrite String.eqb_refl.
  - destruct (String.eqb k' k) eqn:Hk; simpl.
    + now rewrite String.eqb_refl.
    + now rewrite Hk.
Qed.

Lemma redirected_after_sent (e : env) (rq : request) (w : world) :
  redirected e w (after (redirectLogin e (sent rq w))).
Proof.
  apply (redirected_same e (sent rq w)); [reflexivity .. |].
  apply redirectLogin_redirected.
Qed.

(** What a step does to the flag and to the navigations: nothing, or what
    [redirectLogin] does. *)
Lemma ensure_quiet_or_redirected (e : env) (w : world) :
  quiet w (after (ensureAccessToken e w)) ∨ redirected e w (after (ensureAccessToken e w)).
Proof.
  destruct (hasValidAT e w) eqn:Hat.
  - left. rewrite (ensure_cached _ _ Hat). split; reflexivity.
  - destruct (hasValidRT e w) eqn:Hrt.
    + set (rq := refresh_request e (getRT w)).
      destruct (net e rq) as [| st body] eqn:Hnet.
      * right. rewrite (ensure_network_error _ _ Hat Hrt Hnet).
        apply redirected_after_sent.
      * destruct (ok st) eqn:Hok.
        -- destruct body as [data |].
           ++ pose proof (saveTokens_frame e data (sent rq w)) as (_ & Hss & Hnavs & _).
              pose proof (saveTokens_never_out_of_fuel e data (sent rq w)) as Hfuel.
              destruct (saveTokens e data (sent rq w)) as [[[] | x |] w'] eqn:Hsave;
                simpl in *; [| | congruence].
              ** left. rewrite (ensure_saved _ _ Hat Hrt _ _ _ Hnet Hok Hsave).
                 split; assumption.
              ** right. rewrite (ensure_not_saved _ _ Hat Hrt _ _ _ _ Hnet Hok Hsave).
                 apply (redirected_same e w'); [assumption .. |].
                 apply redirectLogin_redirected.
           ++ right. rewrite (ensure_undecodable _ _ Hat Hrt _ Hnet Hok).
              apply redirected_after_sent.
        -- right. rewrite (ensure_refused _ _ Hat Hrt _ _ Hnet Hok).
           apply redirected_after_sent.
    + right. rewrite (ensure_no_refresh_token _ _ Hat Hrt).
      apply redirectLogin_redirected.
Qed.

Lemma fetchMe_quiet_or_redirected (e : env) (accessToken : value) (w : world) :
  quiet w (after (fetchMe e accessToken w))
  ∨ redirected e w (after (fetchMe e accessToken w)).
Proof.
  set (rq := me_request e accessToken).
  destruct (net e rq) as [| st body] eqn:Hnet.
  - left. rewrite (fetchMe_network_error _ _ _ Hnet). split; reflexivity.
  - destruct (ok st) eqn:Hok.
    + destruct body as [me |].
      * left. rewrite (fetchMe_profile _ _ _ _ _ Hnet Hok). simpl.
        destruct (ls_accepts e (ls w) LS.me (JSON_stringify e me)); split; reflexivity.
      * left. rewrite (fetchMe_undecodable _ _ _ _ Hnet Hok). split; reflexivity.
    + right. rewrite (fetchMe_refused _ _ _ _ _ Hnet Hok). apply redirected_after_sent.
Qed.

Lemma onLogout_redirected (e : env) (w : world) : redirected e w (after (onLogout e w)).
Proof.
  rewrite onLogout_eq. simpl.
  apply (redirected_same e (set_ls cleared (logout_sent e w))).
  - unfold logout_sent. now destruct (String.eqb (getAT w) "").
  - unfold logout_sent. now destruct (String.eqb (getAT w) "").
  - apply redirectLogin_redirected.
Qed.

Lemma perform_quiet_or_redirected (e : env) (w : world) (a : action) :
  quiet w (perform e w a) ∨ redirected e w (perform e w a).
Proof.
  destruct a as [| | accessToken | | data |]; unfold perform.
  - right. apply redirectLogin_redirected.
  - apply ensure_quiet_or_redirected.
  - apply fetchMe_quiet_or_redirected.
  - right. apply onLogout_redirected.
  - left. pose proof (saveTokens_frame e data w) as (_ & Hss & Hnavs & _). now split.
  - left. rewrite clearTokens_eq. split; reflexivity.
Qed.

(** Once the flag is set, a step leaves it set and navigates nowhere. *)
Lemma perform_when_redirecting (e : env) (w : world) (a : action) :
  ss w !! REDIRECTING = Some "1" ->
  ss (perform e w a) !! REDIRECTING = Some "1" ∧ navs (perform e w a) = navs w.
Proof.
  intros Hflag.
  destruct (perform_quiet_or_redirected e w a) as [[Hss Hnavs] | [Hss Hnavs]].
  - now rewrite Hss, Hnavs.
  - rewrite Hss, Hnavs. split; [apply lookup_insert_eq |].
    destruct (decide (ss w !! REDIRECTING = Some "1")); [reflexivity | contradiction].
Qed.

Lemma perform_all_when_redirecting (e : env) (l : list action) (w : world) :
  ss w !! REDIRECTING = Some "1" ->
  ss (perform_all e w l) !! REDIRECTING = Some "1" ∧ navs (perform_all e w l) = navs w.
Proof.
  revert w. induction l as [| a l IH]; intros w Hflag; simpl.
  - now split.
  - destruct (perform_when_redirecting e w a Hflag) as [Hflag' Hnavs].
    destruct (IH _ Hflag') as [Hflag'' Hnavs'']. split; [assumption | congruence].
Qed.

(** A sequence of steps navigates at most once, and to the login page. *)
Lemma perform_all_navigations (e : env) (l : list action) (w : world) :
  navs (perform_all e w l) = navs w
  ∨ navs (perform_all e w l) = (navs w ++ [login_target e])%list.
Proof.
  revert w. induction l as [| a l IH]; intros w; simpl.
  - now left.
  - destruct (perform_quiet_or_redirected e w a) as [[Hss Hnavs] | [Hss Hnavs]].
    + rewrite <- Hnavs. apply IH.
    + destruct (decide (ss w !! REDIRECTING = Some "1")) as [Hflag | Hflag].
      * rewrite <- Hnavs. apply IH.
      * assert (Hset : ss (perform e w a) !! REDIRECTING = Some "1")
          by (rewrite Hss; apply lookup_insert_eq).
        right. rewrite (proj2 (perform_all_when_redirecting e l _ Hset)). exact Hnavs.
Qed.

(** C6.  [redirectLogin] is idempotent.  With the flag set it does nothing;
    it always leaves the flag set, so a second call does nothing.  Hence any
    sequence of steps of the session code ([redirectLogin],
    [ensureAccessToken], [fetchMe], [onLogout], [saveTokens], [clearTokens],
    in any number and order, as overlapping calls run them) makes at most
    one navigation, and none when the flag was set at the start; [init],
    which removes the flag once the user is authenticated, is not one of
    these steps.  The one navigation it makes goes to the login page with
    the originating page as the query parameter [from=home]. *)
Theorem redirectLogin_one_shot (e : env) (w : world) :
  (ss w !! REDIRECTING = Some "1" -> redirectLogin e w = (Return tt, w))
  ∧ ss (after (redirectLogin e w)) !! REDIRECTING = Some "1"
  ∧ redirectLogin e (after (redirectLogin e w)) = (Return tt, after (redirectLogin e w))
  ∧ (forall l : list action,
       (navs (perform_all e w l) = navs w
        ∨ navs (perform_all e w l) = (navs w ++ [login_target e])%list)
       ∧ (ss w !! REDIRECTING = Some "1" -> navs (perform_all e w l) = navs w))
  ∧ (forall n : nat,
       navs (perform_all e w (repeat CallRedirectLogin (S n)))
         = navs (after (redirectLogin e w)))
  ∧ (navs (after (redirectLogin e w)) = navs w
     ∨ navs (after (redirectLogin e w)) = (navs w ++ [login_target e])%list)
  ∧ u_href (login_target e) = u_href (login_page e)
  ∧ searchParams_get "from" (u_search (login_target e)) = Some "home".
Proof.
  assert (Hnoop : forall w0, ss w0 !! REDIRECTING = Some "1" ->
                             redirectLogin e w0 = (Return tt, w0)).
  { intros w0 Hflag. unfold redirectLogin.
    destruct (decide (ss w0 !! REDIRECTING = Some "1")); [reflexivity | contradiction]. }
  assert (Hset : ss (after (redirectLogin e w)) !! REDIRECTING = Some "1").
  { rewrite (proj1 (redirectLogin_redirected e w)). apply lookup_insert_eq. }
  split; [apply Hnoop |].
  split; [exact Hset |].
  split; [now apply Hnoop |].
  split.
  { intros l. split; [apply perform_all_navigations |].
    intros Hflag. now apply perform_all_when_redirecting. }
  split.
  { intros n. simpl. now apply (perform_all_when_redirecting e _ _ Hset). }
  split.
  { apply (perform_all_navigations e [CallRedirectLogin] w). }
  split; [reflexivity | apply searchParams_get_set].
Qed.

(** Three components call [ensureAccessToken] over a stale session while
    the refresh endpoint answers 401: one navigation. *)
Lemma redirectLogin_one_shot_witness :
  navs (perform_all (example_env unauthorized) stale_session
          [CallEnsureAccessToken; CallEnsureAccessToken; CallEnsureAccessToken])
    = [login_target (example_env unauthorized)]
  ∧ redirectLogin (example_env unauthorized)
      (example_world [] (Some "1")) = (Return tt, example_world [] (Some "1")).
Proof.
  split.
  - destruct (proj1 (proj2 (proj2 (proj2
               (redirectLogin_one_shot (example_env unauthorized) stale_session))))
               [CallEnsureAccessToken; CallEnsureAccessToken; CallEnsureAccessToken])
      as [[Hnone | Hone] _].
    + vm_compute in Hnone. discriminate Hnone.
    + exact Hone.
  - apply (proj1 (redirectLogin_one_shot (example_env unauthorized)
                    (example_world [] (Some "1")))).
    vm_compute. reflexivity.
Defined.

(** ** [escapeHtml] *)

Lemma prefix_empty (s : string) : String.prefix "" s = true.
Proof. destruct s; reflexivity. Qed.

Lemma append_assoc (a b c : string) : (a +:+ b) +:+ c = a +:+ (b +:+ c).
Proof.
  induction a as [| x a IH]; [reflexivity |].
  change (String x ((a +:+ b) +:+ c) = String x (a +:+ (b +:+ c))). now rewrite IH.
Qed.

Lemma concat_map_app (f : ascii -> string) (a b : string) :
  concat_map f (a +:+ b) = concat_map f a +:+ concat_map f b.
Proof.
  induction a as [| c a IH]; [reflexivity |].
  change (concat_map f (String c (a +:+ b)) = (f c +:+ concat_map f a) +:+ concat_map f b).
  simpl. rewrite IH. symmetry. apply append_assoc.
Qed.

Lemma concat_map_concat_map (f g : ascii -> string) (s : string) :
  concat_map g (concat_map f s) = concat_map (fun c => concat_map g (f c)) s.
Proof.
  induction s as [| c s IH]; simpl; [reflexivity |].
  now rewrite concat_map_app, IH.
Qed.

Lemma concat_map_ext (f g : ascii -> string) (s : string) :
  (forall c, f c = g c) -> concat_map f s = concat_map g s.
Proof. intros H. induction s as [| c s IH]; simpl; [reflexivity |]. now rewrite H, IH. Qed.

(** With a pattern of one code unit, [replaceAll] works code unit by code
    unit. *)
Lemma replaceAll_one (c : ascii) (rep : string) (s : string) :
  replaceAll (String c EmptyString) rep s
  = concat_map (fun x => if Ascii.eqb x c then rep else String x EmptyString) s.
Proof.
  unfold replaceAll. induction s as [| x s IH]; [reflexivity |].
  cbn [replaceAll_from concat_map String.prefix String.length Nat.sub].
  destruct (ascii_dec c x) as [<- | Hne].
  - rewrite prefix_empty, Ascii.eqb_refl. now rewrite IH.
  - assert (Ascii.eqb x c = false) as -> by (apply Ascii.eqb_neq; congruence).
    now rewrite IH.
Qed.

Lemma escapeHtml_entities (v : value) : escapeHtml v = concat_map entity (ToString v).
Proof.
  unfold escapeHtml, DQUOTE. rewrite !replaceAll_one.
  rewrite !concat_map_concat_map. apply concat_map_ext.
  intros c. destruct c as [[] [] [] [] [] [] [] []]; reflexivity.
Qed.

Lemma occurs_app (c : ascii) (a b : string) :
  occurs c (a +:+ b) = occurs c a || occurs c b.
Proof.
  induction a as [| x a IH]; [reflexivity |].
  change (occurs c (String x (a +:+ b)) = occurs c (String x a) || occurs c b).
  simpl. now rewrite IH, orb_assoc.
Qed.

Lemma entity_clean (x : ascii) :
  occurs "<" (entity x) = false ∧ occurs ">" (entity x) = false
  ∧ occurs "034" (entity x) = false ∧ occurs "'" (entity x) = false.
Proof. destruct x as [[] [] [] [] [] [] [] []]; repeat split; reflexivity. Qed.

Lemma entities_clean (c : ascii) (s : string) :
  (forall x, occurs c (entity x) = false) -> occurs c (concat_map entity s) = false.
Proof.
  intros H. induction s as [| x s IH]; simpl; [reflexivity |].
  now rewrite occurs_app, H, IH.
Qed.

Lemma append_cons (x : ascii) (a b : string) : String x a +:+ b = String x (a +:+ b).
Proof. reflexivity. Qed.

Lemma append_nil (b : string) : "" +:+ b = b.
Proof. reflexivity. Qed.

Lemma entity_ampersand (x : ascii) (rest : string) :
  ampersands_start_entities rest = true ->
  ampersands_start_entities (entity x +:+ rest) = true.
Proof.
  intros H.
  destruct x as [[] [] [] [] [] [] [] []];
    match goal with
    | |- context [entity ?c] =>
        let v := eval vm_compute in (entity c) in change (entity c) with v
    end;
    rewrite ?append_cons, append_nil; simpl; rewrite ?prefix_empty; exact H.
Qed.

Lemma entities_ampersands (s : string) :
  ampersands_start_entities (concat_map entity s) = true.
Proof.
  induction s as [| x s IH]; [reflexivity |].
  cbn [concat_map]. now apply entity_ampersand.
Qed.

(** C9.  For every input, [escapeHtml] is the text of the input in which
    each of the five special characters is replaced by its entity: [&] by
    [&amp;], [<] by [&lt;], [>] by [&gt;], the double quote by [&quot;] and
    ['] by [&#039;], the ampersand being replaced first.  In the result none
    of [<], [>], the double quote and ['] occurs, and every [&] is the first
    character of one of the five entities. *)
Theorem escapeHtml_escapes (s : string) :
  escapeHtml (VStr s) = concat_map entity s
  ∧ occurs "<" (escapeHtml (VStr s)) = false
  ∧ occurs ">" (escapeHtml (VStr s)) = false
  ∧ occurs "034" (escapeHtml (VStr s)) = false
  ∧ occurs "'" (escapeHtml (VStr s)) = false
  ∧ ampersands_start_entities (escapeHtml (VStr s)) = true.
Proof.
  rewrite escapeHtml_entities. cbn [ToString].
  split; [reflexivity |].
  repeat (split; [apply entities_clean; intros x; apply entity_clean |]).
  apply entities_ampersands.
Qed.

Example escapeHtml_markup :
  escapeHtml (VStr "<b>Tom & 'Jerry'</b>")
  = "&lt;b&gt;Tom &amp; &#039;Jerry&#039;&lt;/b&gt;".
Proof. reflexivity. Qed.

Example escapeHtml_entity_again : escapeHtml (VStr "&lt;") = "&amp;lt;".
Proof. reflexivity. Qed.

(** ** [fetchAllSongs] *)

Section FetchAllSongs.
Variable e : env.

(** One turn of the loop. *)
Lemma loop_step (fuel : nat) (page : Z) (all : list value) (w : world) :
  fetchAllSongs_loop e (S fuel) page all w
  = if full_page (page_answer e page)
    then fetchAllSongs_loop e fuel (page + 1)
           (all ++ rows_of (page_answer e page)) (sent (songs_request e page) w)
    else (page_end (page_answer e page) all, sent (songs_request e page) w).
Proof.
  unfold page_answer. cbn [fetchAllSongs_loop].
  unfold mbind, M_bind, fetch, full_page, page_end, rows_of, sent.
  destruct (net e (songs_request e page)) as [| st [[| | b | n | s | xs | fields] |]];
    try reflexivity; cbn [fst snd]; destruct (ok st); cbn [negb andb];
    try reflexivity; cbn [json snd mret M_ret]; try (now rewrite app_nil_r).
  destruct (Z.of_nat (length xs) =? 0) eqn:Hzero.
  - apply Z.eqb_eq in Hzero. destruct xs; [| discriminate Hzero].
    cbn [length]. now rewrite app_nil_r.
  - destruct (Z.of_nat (length xs) <? PAGE_SIZE); reflexivity.
Qed.

Lemma page_end_returns_or_throws (x : exchange) (all : list value) :
  page_end x all <> OutOfFuel.
Proof.
  destruct x as [| st [rows |]]; simpl; try destruct (ok st); discriminate.
Qed.

(** More fuel does not change a run that has ended. *)
Lemma loop_more_fuel (fuel : nat) :
  forall (page : Z) (all : list value) (w : world),
    result (fetchAllSongs_loop e fuel page all w) <> OutOfFuel ->
    fetchAllSongs_loop e (S fuel) page all w = fetchAllSongs_loop e fuel page all w.
Proof.
  induction fuel as [| fuel IH]; intros page all w Hended.
  - now contradict Hended.
  - rewrite (loop_step (S fuel) page all w).
    rewrite (loop_step fuel page all w) in Hended |- *.
    destruct (full_page (page_answer e page)); [| reflexivity].
    now apply IH.
Qed.

Lemma loop_enough_fuel (fuel fuel' : nat) (page : Z) (all : list value) (w : world) :
  result (fetchAllSongs_loop e fuel page all w) <> OutOfFuel -> (fuel <= fuel')%nat ->
  fetchAllSongs_loop e fuel' page all w = fetchAllSongs_loop e fuel page all w.
Proof.
  intros Hended Hle. induction Hle as [| fuel' Hle IH]; [reflexivity |].
  rewrite loop_more_fuel; [exact IH | now rewrite IH].
Qed.

Lemma full_not_last (x : exchange) : full_page x = true -> last_page x = false.
Proof.
  destruct x as [| st [[| | b | n | s | xs | fields] |]]; simpl; try discriminate.
  destruct (ok st), (Z.of_nat (length xs) <? PAGE_SIZE); simpl; congruence.
Qed.

(** A page that ends the loop [n] pages ahead: [n + 1] units of fuel are
    enough. *)
Lemma loop_ends (n : nat) :
  forall (page : Z) (all : list value) (w : world),
    last_page (page_answer e (page + Z.of_nat n)) = true ->
    result (fetchAllSongs_loop e (S n) page all w) <> OutOfFuel.
Proof.
  induction n as [| n IH]; intros page all w Hlast; rewrite loop_step.
  - destruct (full_page (page_answer e page)) eqn:Hfull.
    + apply full_not_last in Hfull. rewrite Z.add_0_r in Hlast. congruence.
    + apply page_end_returns_or_throws.
  - destruct (full_page (page_answer e page)) eqn:Hfull.
    + apply IH. now replace (page + 1 + Z.of_nat n) with (page + Z.of_nat (S n)) by lia.
    + apply page_end_returns_or_throws.
Qed.

Lemma pages_from_S (page : Z) (k : nat) :
  pages_from page (S k) = page :: pages_from (page + 1) k.
Proof.
  unfold pages_from. cbn [seq map]. rewrite Z.add_0_r. f_equal.
  rewrite <- seq_shift, map_map. apply map_ext. intros i. lia.
Qed.

(** [k] full pages, then the page that ends the loop. *)
Lemma loop_run (k : nat) :
  forall (page : Z) (all : list value) (w : world),
    (forall i, (i < k)%nat -> full_page (page_answer e (page + Z.of_nat i)) = true) ->
    full_page (page_answer e (page + Z.of_nat k)) = false ->
    fetchAllSongs_loop e (S k) page all w
    = (page_end (page_answer e (page + Z.of_nat k)) (all ++ rows_upto e page k),
       requested e page (S k) w).
Proof.
  induction k as [| k IH]; intros page all w Hfull Hend; rewrite loop_step.
  - rewrite Z.add_0_r in Hend. rewrite Hend.
    unfold rows_upto, requested, pages_from, sent. simpl.
    now rewrite app_nil_r, !Z.add_0_r.
  - assert (Hfirst : full_page (page_answer e page) = true).
    { specialize (Hfull 0%nat). rewrite Z.add_0_r in Hfull. apply Hfull. lia. }
    rewrite Hfirst, IH.
    + replace (page + 1 + Z.of_nat k) with (page + Z.of_nat (S k)) by lia.
      f_equal.
      * f_equal. unfold rows_upto. rewrite (pages_from_S page k). simpl.
        now rewrite app_assoc.
      * unfold requested, sent. rewrite (pages_from_S page (S k)). simpl.
        now rewrite <- app_assoc.
    + intros i Hi. replace (page + 1 + Z.of_nat i) with (page + Z.of_nat (S i)) by lia.
      apply Hfull. lia.
    + now replace (page + 1 + Z.of_nat k) with (page + Z.of_nat (S k)) by lia.
Qed.
End FetchAllSongs.

Lemma pages_from_snoc (page : Z) (k : nat) :
  pages_from page (S k) = (pages_from page k ++ [page + Z.of_nat k])%list.
Proof. unfold pages_from. now rewrite seq_S, map_app. Qed.

Lemma rows_upto_snoc (e : env) (page : Z) (k : nat) :
  rows_upto e (page) (S k)
  = (rows_upto e page k ++ rows_of (page_answer e (page + Z.of_nat k)))%list.
Proof.
  unfold rows_upto. rewrite pages_from_snoc, map_app, concat_app. simpl.
  now rewrite app_nil_r.
Qed.

Lemma last_page_end (x : exchange) (all : list value) :
  last_page x = true -> page_end x all = Return (all ++ rows_of x)%list.
Proof.
  destruct x as [| st [rows |]]; simpl; try discriminate.
  destruct (ok st); [reflexivity |].
  destruct rows; simpl; discriminate.
Qed.

Lemma last_not_full (x : exchange) : last_page x = true -> full_page x = false.
Proof.
  intros H. destruct (full_page x) eqn:Hfull; [| reflexivity].
  apply full_not_last in Hfull. congruence.
Qed.

Lemma failed_not_full (st : Z) (body : option value) :
  ok st = false -> full_page (Response st body) = false.
Proof. intros H. destruct body as [[] |]; simpl; rewrite ?H; reflexivity. Qed.

(** C10.  If the backend answers some page with a success whose body is not
    an array, or is an array of fewer than 200 rows (an empty one included),
    [fetchAllSongs] terminates: from some amount of fuel on the run ends,
    and always in the same way.  When the pages before page [k + 1] are
    successes with arrays of at least 200 rows: if page [k + 1] is such a
    last page, the pages [1 .. k + 1] are requested in increasing order and
    the result is the concatenation of their rows in that order, the rows of
    the last page included (a body that is not an array has no rows); if
    page [k + 1] comes back with a non-success status, the call throws the
    error [/api/songs failed: <status>]. *)
Theorem fetchAllSongs_pages (e : env) (w : world) :
  (forall n : nat,
     last_page (page_answer e (1 + Z.of_nat n)) = true ->
     exists fuel0 : nat, forall fuel : nat, (fuel0 <= fuel)%nat ->
       result (fetchAllSongs e fuel w) <> OutOfFuel
       ∧ fetchAllSongs e fuel w = fetchAllSongs e fuel0 w)
  ∧ (forall k : nat,
       (forall i : nat, (i < k)%nat ->
          full_page (page_answer e (1 + Z.of_nat i)) = true) ->
       (last_page (page_answer e (1 + Z.of_nat k)) = true ->
        forall fuel : nat, (k < fuel)%nat ->
          result (fetchAllSongs e fuel w)
            = Return (concat (map (fun p => rows_of (page_answer e p))
                                  (pages_from 1 (S k))))
          ∧ reqs (after (fetchAllSongs e fuel w))
              = (reqs w ++ map (songs_request e) (pages_from 1 (S k)))%list)
       ∧ (forall (st : Z) (body : option value),
            page_answer e (1 + Z.of_nat k) = Response st body -> ok st = false ->
            forall fuel : nat, (k < fuel)%nat ->
              result (fetchAllSongs e fuel w)
                = Throw (Error ("/api/songs failed: " +:+ string_of_Z st))
              ∧ reqs (after (fetchAllSongs e fuel w))
                  = (reqs w ++ map (songs_request e) (pages_from 1 (S k)))%list)).
Proof.
  unfold fetchAllSongs. split.
  - intros n Hlast. exists (S n). intros fuel Hfuel.
    pose proof (loop_ends e n 1 [] w Hlast) as Hends.
    rewrite (loop_enough_fuel e (S n) fuel 1 [] w Hends Hfuel). now split.
  - intros k Hfull. split.
    + intros Hlast fuel Hfuel.
      pose proof (loop_run e k 1 [] w Hfull (last_not_full _ Hlast)) as Hrun.
      rewrite (last_page_end _ _ Hlast) in Hrun.
      rewrite (loop_enough_fuel e (S k) fuel 1 [] w); [| rewrite Hrun; discriminate | lia].
      rewrite Hrun. simpl. split; [| reflexivity].
      f_equal. symmetry. apply (rows_upto_snoc e 1 k).
    + intros st body Hanswer Hok fuel Hfuel.
      assert (Hnot : full_page (page_answer e (1 + Z.of_nat k)) = false)
        by (rewrite Hanswer; now apply failed_not_full).
      pose proof (loop_run e k 1 [] w Hfull Hnot) as Hrun.
      rewrite Hanswer in Hrun. unfold page_end in Hrun. rewrite Hok in Hrun.
      rewrite (loop_enough_fuel e (S k) fuel 1 [] w); [| rewrite Hrun; discriminate | lia].
      rewrite Hrun. now split.
Qed.

Lemma fetchAllSongs_pages_witness :
  result (fetchAllSongs (example_songs_env two_pages) 5 (example_world [] None))
    = Return (repeat (example_song 1) 200 ++ [example_song 2])%list
  ∧ result (fetchAllSongs (example_songs_env failing_second_page) 5 (example_world [] None))
      = Throw (Error "/api/songs failed: 500")
  ∧ (exists fuel0 : nat, forall fuel : nat, (fuel0 <= fuel)%nat ->
       result (fetchAllSongs (example_songs_env two_pages) fuel (example_world [] None))
         <> OutOfFuel).
Proof.
  split; [| split].
  - destruct (proj2 (fetchAllSongs_pages (example_songs_env two_pages)
                       (example_world [] None)) 1%nat) as [Hlast _].
    { intros i Hi. destruct i; [vm_compute; reflexivity | lia]. }
    destruct (Hlast eq_refl 5%nat) as [Hresult _]; [lia |].
    rewrite Hresult. vm_compute. reflexivity.
  - destruct (proj2 (fetchAllSongs_pages (example_songs_env failing_second_page)
                       (example_world [] None)) 1%nat) as [_ Hfails].
    { intros i Hi. destruct i; [vm_compute; reflexivity | lia]. }
    destruct (Hfails 500 None eq_refl eq_refl 5%nat) as [Hresult _]; [lia |].
    rewrite Hresult. vm_compute. reflexivity.
  - destruct (proj1 (fetchAllSongs_pages (example_songs_env two_pages)
                       (example_world [] None)) 1%nat) as [fuel0 Hfuel0].
    { vm_compute. reflexivity. }
    exists fuel0. intros fuel Hfuel. apply (Hfuel0 fuel Hfuel).
Defined.

(** * More of home.js *)

(** ** The session functions, beyond their cases *)


(** X2.  [fetchMe] leaves transport failures to its caller.  When the
    request fails at the network level, or the body of a success answer is
    not JSON, the call throws; it has sent its request, and it has neither
    triggered the login redirect nor touched the storage. *)
Theorem fetchMe_throws (e : env) (accessToken : value) (w : world) :
  (net e (me_request e accessToken) = Rejected
   ∨ exists st, net e (me_request e accessToken) = Response st None ∧ ok st = true) ->
  (result (fetchMe e accessToken w) = Throw NetworkError
   ∨ result (fetchMe e accessToken w) = Throw SyntaxError)
  ∧ ls (after (fetchMe e accessToken w)) = ls w
  ∧ ss (after (fetchMe e accessToken w)) = ss w
  ∧ navs (after (fetchMe e accessToken w)) = navs w
  ∧ reqs (after (fetchMe e accessToken w)) = (reqs w ++ [me_request e accessToken])%list.
Proof.
  intros [Hnet | (st & Hnet & Hok)].
  - rewrite (fetchMe_network_error _ _ _ Hnet). simpl. eauto 6.
  - rewrite (fetchMe_undecodable _ _ _ _ Hnet Hok). simpl. eauto 6.
Qed.

Lemma fetchMe_throws_witness :
  result (fetchMe (example_env Rejected) (VStr "T1") short_session) = Throw NetworkError
  ∧ navs (after (fetchMe (example_env (Response 200 None)) (VStr "T1") short_session)) = [].
Proof.
  split.
  - destruct (fetchMe_throws (example_env Rejected) (VStr "T1") short_session)
      as ([Hthrown | Hthrown] & _); [left; reflexivity | exact Hthrown |].
    vm_compute in Hthrown. discriminate Hthrown.
  - destruct (fetchMe_throws (example_env (Response 200 None)) (VStr "T1") short_session)
      as (_ & _ & _ & Hnavs & _); [right; exists 200; split; reflexivity |].
    exact Hnavs.
Defined.

(** ** What is written to the cache is read back *)










(** X4.  After [onLogout] the session is over for the page:
    [ensureAccessToken] finds no valid token, sends no request, returns the
    empty string and, the redirect flag being set, asks for no second
    navigation; the browser is left exactly as logout left it. *)
Theorem ensureAccessToken_after_logout (e : env) (w : world) :
  hasValidAT e (after (onLogout e w)) = false
  ∧ hasValidRT e (after (onLogout e w)) = false
  ∧ ensureAccessToken e (after (onLogout e w)) = (Return (VStr ""), after (onLogout e w)).
Proof.
  rewrite onLogout_eq. cbn [after snd].
  set (w1 := set_ls cleared (logout_sent e w)).
  set (w2 := after (redirectLogin e w1)).
  assert (Hls : ls w2 = cleared (ls w)).
  { unfold w2. rewrite (proj1 (redirectLogin_ls e w1)).
    unfold w1, logout_sent. now destruct (String.eqb (getAT w) ""). }
  pose proof (cleared_lookup (ls w)) as (H1 & _ & H3 & _).
  assert (Hat : hasValidAT e w2 = false).
  { unfold hasValidAT, getAT. now rewrite Hls, H1. }
  assert (Hrt : hasValidRT e w2 = false).
  { unfold hasValidRT, getRT. now rewrite Hls, H3. }
  split; [exact Hat |]. split; [exact Hrt |].
  rewrite (ensure_no_refresh_token _ _ Hat Hrt). f_equal.
  assert (Hflag : ss w2 !! REDIRECTING = Some "1").
  { unfold w2. rewrite (proj1 (redirectLogin_redirected e w1)). apply lookup_insert_eq. }
  unfold redirectLogin.
  destruct (decide (ss w2 !! REDIRECTING = Some "1")); [reflexivity | contradiction].
Qed.

(** ** [init] *)

(** [ensureAccessToken] asks for the redirect only when it returns the empty
    string. *)
Lemma ensure_quiet_or_empty (e : env) (w : world) :
  quiet w (after (ensureAccessToken e w))
  ∨ (result (ensureAccessToken e w) = Return (VStr "")
     ∧ redirected e w (after (ensureAccessToken e w))).
Proof.
  destruct (hasValidAT e w) eqn:Hat.
  - left. rewrite (ensure_cached _ _ Hat). split; reflexivity.
  - destruct (hasValidRT e w) eqn:Hrt.
    + set (rq := refresh_request e (getRT w)).
      destruct (net e rq) as [| st body] eqn:Hnet.
      * right. rewrite (ensure_network_error _ _ Hat Hrt Hnet).
        split; [reflexivity | apply redirected_after_sent].
      * destruct (ok st) eqn:Hok.
        -- destruct body as [data |].
           ++ pose proof (saveTokens_frame e data (sent rq w)) as (_ & Hss & Hnavs & _).
              pose proof (saveTokens_never_out_of_fuel e data (sent rq w)) as Hfuel.
              destruct (saveTokens e data (sent rq w)) as [[[] | x |] w'] eqn:Hsave;
                simpl in *; [| | congruence].
              ** left. rewrite (ensure_saved _ _ Hat Hrt _ _ _ Hnet Hok Hsave).
                 split; assumption.
              ** right. rewrite (ensure_not_saved _ _ Hat Hrt _ _ _ _ Hnet Hok Hsave).
                 split; [reflexivity |].
                 apply (redirected_same e w'); [assumption .. |].
                 apply redirectLogin_redirected.
           ++ right. rewrite (ensure_undecodable _ _ Hat Hrt _ Hnet Hok).
              split; [reflexivity | apply redirected_after_sent].
        -- right. rewrite (ensure_refused _ _ Hat Hrt _ _ Hnet Hok).
           split; [reflexivity | apply redirected_after_sent].
    + right. rewrite (ensure_no_refresh_token _ _ Hat Hrt).
      split; [reflexivity | apply redirectLogin_redirected].
Qed.

Lemma ensure_returns (e : env) (w : world) :
  exists v, ensureAccessToken e w = (Return v, after (ensureAccessToken e w)).
Proof.
  destruct (hasValidAT e w) eqn:Hat.
  - rewrite (ensure_cached _ _ Hat). eauto.
  - destruct (hasValidRT e w) eqn:Hrt.
    + destruct (ensure_refresh_result e w Hat Hrt) as [H | (st & data & _ & _ & H)];
        destruct (ensureAccessToken e w) as [r w']; simpl in H; subst r; eauto.
    + rewrite (ensure_no_refresh_token _ _ Hat Hrt). eauto.
Qed.


Lemma redirected_navs (e : env) (w w' : world) :
  redirected e w w' ->
  ss w' !! REDIRECTING = Some "1"
  ∧ (navs w' = navs w ∨ navs w' = (navs w ++ [login_target e])%list).
Proof.
  intros [Hss Hnavs]. rewrite Hss, Hnavs. split; [apply lookup_insert_eq |].
  destruct (decide (ss w !! REDIRECTING = Some "1")); auto.
Qed.

Lemma injectUserBar_keeps (username : value) (p : page) (text : string) :
  userBar p = Some text -> userBar (injectUserBar username p) = Some text.
Proof. intros H. unfold injectUserBar. now rewrite H. Qed.

Lemma prefill_keeps (d : document_env) (p : page) (text : string) :
  userBar p = Some text -> userBar (prefill d p) = Some text.
Proof.
  intros H. unfold prefill. rewrite H. now destruct (ls (browser p) !! LS.me) as [[] |].
Qed.


Lemma display_name_truthy (x : value) : truthy (display_name x) = true.
Proof.
  unfold display_name, or_else.
  destruct (truthy (if truthy (field x "username") then field x "username"
                    else field x "email")) eqn:H; [exact H | reflexivity].
Qed.

Lemma injectUserBar_display_name (x : value) (w : world) :
  userBar (injectUserBar (display_name x) (Page w None))
  = Some (escapeHtml (display_name x)).
Proof.
  unfold injectUserBar, or_else. cbn [userBar]. now rewrite display_name_truthy.
Qed.

(** [init] once the token is known. *)
Lemma init_with_token (d : document_env) (e : env) (p : page) (at_ : value) :
  on_login_page d = false ->
  result (ensureAccessToken e (browser p)) = Return at_ ->
  init d e p
  = let bar := userBar (prefill d p) in
    let w1 := after (ensureAccessToken e (browser p)) in
    if negb (truthy at_) then (Return tt, Page w1 bar)
    else
      match fetchMe e at_ w1 with
      | (Return me, w2) =>
          if negb (truthy me) then (Return tt, Page w2 bar)
          else (Return tt,
                Page (clear_redirecting w2)
                     (userBar (injectUserBar (display_name me) (Page w2 bar))))
      | (Throw _, w2) => (Return tt, Page (after (redirectLogin e w2)) bar)
      | (OutOfFuel, w2) => (OutOfFuel, Page w2 bar)
      end.
Proof.
  intros Hpage Hat. unfold init. fold (on_login_page d). rewrite Hpage.
  destruct (ensureAccessToken e (browser p)) as [r w1]. simpl in Hat. subst r.
  reflexivity.
Qed.

Lemma truthy_not_empty (at_ : value) : truthy at_ = true -> at_ <> VStr "".
Proof. intros H ->. discriminate H. Qed.

(** A truthy token comes without a redirect. *)
Lemma ensure_truthy_quiet (e : env) (w : world) (at_ : value) :
  result (ensureAccessToken e w) = Return at_ -> truthy at_ = true ->
  quiet w (after (ensureAccessToken e w)).
Proof.
  intros Hat Htruthy.
  destruct (ensure_quiet_or_empty e w) as [Hquiet | [Hempty _]]; [exact Hquiet |].
  rewrite Hempty in Hat. injection Hat as <-. discriminate Htruthy.
Qed.



Lemma fetchMe_ss_navs (e : env) (accessToken : value) (w : world) (st : Z) (me : value) :
  net e (me_request e accessToken) = Response st (Some me) -> ok st = true ->
  fetchMe e accessToken w = (Return me, after (fetchMe e accessToken w))
  ∧ ss (after (fetchMe e accessToken w)) = ss w
  ∧ navs (after (fetchMe e accessToken w)) = navs w
  ∧ ls (after (fetchMe e accessToken w))
      = (if ls_accepts e (ls w) LS.me (JSON_stringify e me)
         then <[LS.me := JSON_stringify e me]> (ls w) else ls w).
Proof.
  intros Hnet Hok. rewrite (fetchMe_profile _ _ _ _ _ Hnet Hok). cbn [after snd].
  destruct (ls_accepts e (ls w) LS.me (JSON_stringify e me)); repeat split.
Qed.

(** X6.  A successful [init].  Away from the login page, with a truthy
    token out of [ensureAccessToken] and a success answer of the profile
    endpoint with a truthy body, [init] returns, asks for no navigation
    and removes the redirect flag, set or not.  The user bar is
    there: the one the page or the cached profile gave, or else the name of
    the fresh profile ([username], else [email], else ["User"]), escaped.
    The profile is cached when the storage accepts it. *)
Theorem init_authenticates
  (d : document_env) (e : env) (p : page) (at_ : value) (st : Z) (me : value) :
  on_login_page d = false ->
  result (ensureAccessToken e (browser p)) = Return at_ ->
  truthy at_ = true ->
  net e (me_request e at_) = Response st (Some me) ->
  ok st = true ->
  truthy me = true ->
  fst (init d e p) = Return tt
  ∧ ss (browser (snd (init d e p))) !! REDIRECTING = None
  ∧ navs (browser (snd (init d e p))) = navs (browser p)
  ∧ userBar (snd (init d e p))
      = Some (match userBar (prefill d p) with
              | Some text => text
              | None => escapeHtml (display_name me)
              end)
  ∧ ls (browser (snd (init d e p)))
      = (let cache := ls (after (ensureAccessToken e (browser p))) in
         if ls_accepts e cache LS.me (JSON_stringify e me)
         then <[LS.me := JSON_stringify e me]> cache else cache).
Proof.
  intros Hpage Hres Htruthy Hnet Hok Hme.
  rewrite (init_with_token d e p at_ Hpage Hres). cbv zeta.
  pose proof (ensure_truthy_quiet e (browser p) at_ Hres Htruthy) as [Hss1 Hnavs1].
  set (w1 := after (ensureAccessToken e (browser p))) in *.
  destruct (fetchMe_ss_navs e at_ w1 st me Hnet Hok) as (Heq & Hss & Hnavs & Hls).
  rewrite Htruthy, Heq, Hme. cbn [negb fst snd browser clear_redirecting ss navs ls].
  split; [reflexivity |].
  split; [apply lookup_delete_eq |].
  split; [now rewrite Hnavs |].
  split; [| exact Hls].
  destruct (userBar (prefill d p)) as [text |] eqn:Hbar.
  - unfold injectUserBar. cbn [userBar]. reflexivity.
  - apply injectUserBar_display_name.
Qed.

Lemma init_authenticates_witness :
  let r := init (example_document "/app/home.html") (example_env new_profile_answer)
                (first_visit (Some "1")) in
  fst r = Return tt
  ∧ ss (browser (snd r)) !! REDIRECTING = None
  ∧ userBar (snd r) = Some "Henry &lt;admin&gt;".
Proof.
  cbv zeta.
  destruct (init_authenticates (example_document "/app/home.html")
              (example_env new_profile_answer) (first_visit (Some "1")) (VStr "T1") 200
              (VObj [("username", VStr "Henry <admin>"); ("email", VStr "h@x.org")]))
    as (Hreturns & Hflag & _ & Hbar & _); try (vm_compute; reflexivity).
  split; [exact Hreturns |]. split; [exact Hflag |].
  rewrite Hbar. vm_compute. reflexivity.
Defined.

(** X7.  [init] turns every failure of the profile fetch into the login
    redirect.  With a truthy token, when the profile request fails at the
    network level, comes back with a non-success status, or with a body
    that is not JSON, [init] returns, the redirect is triggered (by
    [fetchMe] on a status, by the handler of [init] on an exception), the
    storage is as [ensureAccessToken] left it and the bar is the one
    [prefill] left. *)
Theorem init_redirects_when_profile_fails
  (d : document_env) (e : env) (p : page) (at_ : value) :
  on_login_page d = false ->
  result (ensureAccessToken e (browser p)) = Return at_ ->
  truthy at_ = true ->
  (net e (me_request e at_) = Rejected
   ∨ (exists st, net e (me_request e at_) = Response st None)
   ∨ (exists st body, net e (me_request e at_) = Response st body ∧ ok st = false)) ->
  fst (init d e p) = Return tt
  ∧ redirected e (browser p) (browser (snd (init d e p)))
  ∧ ss (browser (snd (init d e p))) !! REDIRECTING = Some "1"
  ∧ ls (browser (snd (init d e p))) = ls (after (ensureAccessToken e (browser p)))
  ∧ userBar (snd (init d e p)) = userBar (prefill d p).
Proof.
  intros Hpage Hres Htruthy Hfails.
  rewrite (init_with_token d e p at_ Hpage Hres). cbv zeta.
  pose proof (ensure_truthy_quiet e (browser p) at_ Hres Htruthy) as [Hss1 Hnavs1].
  set (w1 := after (ensureAccessToken e (browser p))) in *.
  rewrite Htruthy. cbn [negb].
  assert (Hcases :
    (exists x, fetchMe e at_ w1 = (Throw x, sent (me_request e at_) w1))
    ∨ fetchMe e at_ w1 = (Return VNull, after (redirectLogin e (sent (me_request e at_) w1)))).
  { destruct Hfails as [Hnet | [[st Hnet] | (st & body & Hnet & Hok)]].
    - left. rewrite (fetchMe_network_error _ _ _ Hnet). eauto.
    - destruct (ok st) eqn:Hok.
      + left. rewrite (fetchMe_undecodable _ _ _ _ Hnet Hok). eauto.
      + right. apply (fetchMe_refused _ _ _ _ _ Hnet Hok).
    - right. apply (fetchMe_refused _ _ _ _ _ Hnet Hok). }
  assert (Hred : redirected e (browser p)
                   (after (redirectLogin e (sent (me_request e at_) w1)))).
  { apply (redirected_same e (sent (me_request e at_) w1)); [assumption .. |].
    apply redirectLogin_redirected. }
  assert (Hls : ls (after (redirectLogin e (sent (me_request e at_) w1))) = ls w1)
    by (now rewrite (proj1 (redirectLogin_ls _ _))).
  destruct Hcases as [[x Heq] | Heq]; rewrite Heq; cbn [fst snd browser userBar negb truthy];
    (split; [reflexivity |]); (split; [exact Hred |]);
    (split; [apply (redirected_navs _ _ _ Hred) |]); (split; [exact Hls | reflexivity]).
Qed.

Lemma init_redirects_when_profile_fails_witness :
  let r := init (example_document "/app/home.html") (example_env Rejected)
                (returning_session None) in
  fst r = Return tt
  ∧ navs (browser (snd r)) = [login_target (example_env Rejected)]
  ∧ userBar (snd r) = Some "henry".
Proof.
  cbv zeta.
  destruct (init_redirects_when_profile_fails (example_document "/app/home.html")
              (example_env Rejected) (returning_session None) (VStr "T1"))
    as (Hreturns & [_ Hnavs] & _ & _ & Hbar); try (vm_compute; reflexivity).
  { left. reflexivity. }
  split; [exact Hreturns |]. split; [exact Hnavs |].
  rewrite Hbar. vm_compute. reflexivity.
Defined.

(** X8.  The user bar is written once.  A bar the page already has is left
    as it is by [init].  Without one, and with a cached profile that
    [JSON.parse] reads, the bar shows the cached name at the end of [init],
    whatever the network answers: the name of a freshly fetched profile does
    not replace it. *)
Theorem init_writes_user_bar_once (d : document_env) (e : env) (p : page) :
  (forall text, userBar p = Some text -> userBar (snd (init d e p)) = Some text)
  ∧ (forall cached meCached,
       on_login_page d = false ->
       userBar p = None ->
       ls (browser p) !! LS.me = Some cached -> cached <> "" ->
       JSON_parse d cached = Some meCached ->
       userBar (snd (init d e p)) = Some (escapeHtml (display_name meCached))).
Proof.
  assert (Hkept : forall text, userBar (prefill d p) = Some text ->
                               on_login_page d = false ->
                               userBar (snd (init d e p)) = Some text).
  { intros text Hbar Hpage.
    destruct (ensure_returns e (browser p)) as [at_ Hat].
    assert (Hres : result (ensureAccessToken e (browser p)) = Return at_)
      by (now rewrite Hat).
    rewrite (init_with_token d e p at_ Hpage Hres). cbv zeta.
    destruct (truthy at_); cbn [negb snd userBar]; [| exact Hbar].
    destruct (fetchMe e at_ (after (ensureAccessToken e (browser p)))) as [[me | x |] w2];
      cbn [snd userBar]; try exact Hbar.
    destruct (truthy me); cbn [negb snd userBar]; [| exact Hbar].
    unfold injectUserBar. cbn [userBar]. now rewrite Hbar. }
  split.
  - intros text Hbar. destruct (on_login_page d) eqn:Hpage.
    + unfold init. fold (on_login_page d). now rewrite Hpage.
    + apply Hkept; [now apply prefill_keeps | reflexivity].
  - intros cached meCached Hpage Hnone Hcached Hnonempty Hparse.
    apply Hkept; [| exact Hpage].
    unfold prefill. rewrite Hcached, Hnone.
    destruct cached as [| c rest]; [congruence |].
    rewrite Hparse. rewrite <- (injectUserBar_display_name meCached (browser p)).
    destruct p as [w bar]. cbn [userBar browser] in *. now subst bar.
Qed.

(** The cached profile says "henry", the server says "Henry <admin>": the
    bar says "henry". *)
Lemma init_writes_user_bar_once_witness :
  userBar (snd (init (example_document "/app/home.html") (example_env new_profile_answer)
                     (returning_session None)))
  = Some "henry".
Proof.
  rewrite (proj2 (init_writes_user_bar_once (example_document "/app/home.html")
                    (example_env new_profile_answer) (returning_session None))
             (example_stringify (VObj [("username", VStr "henry")]))
             (VObj [("username", VStr "henry")]));
    try (vm_compute; reflexivity).
  vm_compute. discriminate.
Defined.

(** The page a successful [init] leaves. *)
Lemma init_success_page
  (d : document_env) (e : env) (p : page) (at_ : value) (st : Z) (me : value) :
  on_login_page d = false ->
  result (ensureAccessToken e (browser p)) = Return at_ ->
  truthy at_ = true ->
  net e (me_request e at_) = Response st (Some me) ->
  ok st = true ->
  truthy me = true ->
  exists w2 bar,
    init d e p = (Return tt, Page (clear_redirecting w2) bar)
    ∧ ss w2 = ss (browser p) ∧ navs w2 = navs (browser p).
Proof.
  intros Hpage Hres Htruthy Hnet Hok Hme.
  rewrite (init_with_token d e p at_ Hpage Hres). cbv zeta.
  pose proof (ensure_truthy_quiet e (browser p) at_ Hres Htruthy) as [Hss1 Hnavs1].
  set (w1 := after (ensureAccessToken e (browser p))) in *.
  destruct (fetchMe_ss_navs e at_ w1 st me Hnet Hok) as (Heq & Hss & Hnavs & _).
  rewrite Htruthy, Heq, Hme. cbn [negb].
  eexists _, _. split; [reflexivity |]. split; congruence.
Qed.

(** X9.  A successful [init] re-arms the redirect.  Whatever the redirect
    flag was before (an earlier redirect in the tab may have left it set),
    after a successful [init] a logout navigates to the login page, exactly
    once. *)
Theorem logout_after_init_navigates
  (d : document_env) (e : env) (p : page) (at_ : value) (st : Z) (me : value) :
  on_login_page d = false ->
  result (ensureAccessToken e (browser p)) = Return at_ ->
  truthy at_ = true ->
  net e (me_request e at_) = Response st (Some me) ->
  ok st = true ->
  truthy me = true ->
  navs (after (onLogout e (browser (snd (init d e p)))))
  = (navs (browser p) ++ [login_target e])%list.
Proof.
  intros Hpage Hres Htruthy Hnet Hok Hme.
  destruct (init_success_page d e p at_ st me Hpage Hres Htruthy Hnet Hok Hme)
    as (w2 & bar & Heq & Hss & Hnavs).
  rewrite Heq. cbn [snd browser].
  pose proof (onLogout_redirected e (clear_redirecting w2)) as [_ Hn].
  rewrite Hn. cbn [clear_redirecting ss navs].
  rewrite lookup_delete_eq.
  destruct (decide (None = Some "1")) as [Habsurd | _]; [discriminate Habsurd |].
  now rewrite Hnavs.
Qed.

Lemma logout_after_init_navigates_witness :
  let e := example_env new_profile_answer in
  ss (browser (first_visit (Some "1"))) !! REDIRECTING = Some "1"
  ∧ navs (after (onLogout e (browser (snd (init (example_document "/app/home.html") e
                                                 (first_visit (Some "1")))))))
    = [login_target e].
Proof.
  cbv zeta. split; [reflexivity |].
  apply (logout_after_init_navigates (example_document "/app/home.html")
           (example_env new_profile_answer) (first_visit (Some "1")) (VStr "T1") 200
           (VObj [("username", VStr "Henry <admin>"); ("email", VStr "h@x.org")]));
    vm_compute; reflexivity.
Defined.

(** X10.  Two ways [init] stops with the user neither signed in nor sent to
    the login page.  When the refresh answer is a success that is persisted
    and whose [access_token] is falsy (missing, empty), [init] returns after
    the refresh request alone.  When the profile endpoint answers a truthy
    token with a success whose body is falsy ([null], [false], [0], [""]),
    [init] returns after the profile request.  In both cases no redirect is
    triggered, the redirect flag is left as it was, and the bar is the one
    [prefill] left. *)
Theorem init_stops_without_redirect (d : document_env) (e : env) (p : page) :
  on_login_page d = false ->
  (forall st data,
     hasValidAT e (browser p) = false -> hasValidRT e (browser p) = true ->
     net e (refresh_request e (getRT (browser p))) = Response st (Some data) ->
     ok st = true ->
     result (saveTokens e data (sent (refresh_request e (getRT (browser p))) (browser p)))
       = Return tt ->
     truthy (field data "access_token") = false ->
     fst (init d e p) = Return tt
     ∧ quiet (browser p) (browser (snd (init d e p)))
     ∧ reqs (browser (snd (init d e p)))
         = (reqs (browser p) ++ [refresh_request e (getRT (browser p))])%list
     ∧ userBar (snd (init d e p)) = userBar (prefill d p))
  ∧ (forall at_ st me,
       result (ensureAccessToken e (browser p)) = Return at_ -> truthy at_ = true ->
       net e (me_request e at_) = Response st (Some me) -> ok st = true ->
       truthy me = false ->
       fst (init d e p) = Return tt
       ∧ quiet (browser p) (browser (snd (init d e p)))
       ∧ userBar (snd (init d e p)) = userBar (prefill d p)).
Proof.
  intros Hpage. split.
  - intros st data Hat Hrt Hnet Hok Hsaved Hfalsy.
    apply saveTokens_returns in Hsaved as [_ Hsaved].
    pose proof (ensure_saved _ _ Hat Hrt _ _ _ Hnet Hok Hsaved) as Heq.
    assert (Hres : result (ensureAccessToken e (browser p))
                   = Return (field data "access_token")) by (now rewrite Heq).
    rewrite (init_with_token d e p _ Hpage Hres). cbv zeta.
    rewrite Hfalsy, Heq. cbn [negb fst snd after browser userBar].
    split; [reflexivity |]. split; [split; reflexivity |]. split; reflexivity.
  - intros at_ st me Hres Htruthy Hnet Hok Hme.
    rewrite (init_with_token d e p at_ Hpage Hres). cbv zeta.
    pose proof (ensure_truthy_quiet e (browser p) at_ Hres Htruthy) as [Hss1 Hnavs1].
    set (w1 := after (ensureAccessToken e (browser p))) in *.
    destruct (fetchMe_ss_navs e at_ w1 st me Hnet Hok) as (Heq & Hss & Hnavs & _).
    rewrite Htruthy, Heq, Hme. cbn [negb fst snd browser userBar].
    split; [reflexivity |]. split; [split; congruence | reflexivity].
Qed.

Lemma init_stops_without_redirect_witness :
  let d := example_document "/app/home.html" in
  quiet (browser (first_visit None))
        (browser (snd (init d (example_env (Response 200 (Some VNull))) (first_visit None))))
  ∧ userBar (snd (init d (example_env (Response 200 (Some VNull))) (first_visit None)))
    = None
  ∧ reqs (browser (snd (init d (example_env (Response 200 (Some (VObj []))))
                             (Page refresh_only_session None))))
    = [refresh_request (example_env (Response 200 (Some (VObj [])))) "R1"].
Proof.
  cbv zeta.
  destruct (proj2 (init_stops_without_redirect (example_document "/app/home.html")
                     (example_env (Response 200 (Some VNull))) (first_visit None) eq_refl)
              (VStr "T1") 200 VNull)
    as (_ & Hquiet & Hbar); [vm_compute; reflexivity .. |].
  split; [exact Hquiet |]. split; [exact Hbar |].
  destruct (proj1 (init_stops_without_redirect (example_document "/app/home.html")
                     (example_env (Response 200 (Some (VObj []))))
                     (Page refresh_only_session None) eq_refl)
              200 (VObj []))
    as (_ & _ & Hreqs & _); [vm_compute; reflexivity .. |].
  exact Hreqs.
Defined.

(** ** Songs *)

Example fmtDuration_clock : fmtDuration (VStr "03:45") = VStr "03:45".
Proof. reflexivity. Qed.
Example duration_pattern_hours : duration_pattern "01:03:45" = true.
Proof. reflexivity. Qed.
Example duration_pattern_seconds : duration_pattern "225" = false.
Proof. reflexivity. Qed.

(** X11.  The pattern of [fmtDuration] decides nothing: for every value,
    matching or not, the result is the value itself when it is truthy and
    the empty string otherwise.  A duration is never rejected and never
    reformatted. *)
Theorem fmtDuration_is_or_empty (s : value) :
  fmtDuration s = or_else s (VStr "")
  ∧ (truthy s = true -> fmtDuration s = s)
  ∧ (truthy s = false -> fmtDuration s = VStr "").
Proof.
  unfold fmtDuration, or_else.
  destruct (truthy s) eqn:Htruthy; cbn [andb].
  - destruct (duration_pattern (ToString s)); repeat split; congruence.
  - repeat split; congruence.
Qed.

Lemma fmtDuration_is_or_empty_witness :
  fmtDuration (VStr "about 4 minutes") = VStr "about 4 minutes"
  ∧ fmtDuration VNull = VStr "".
Proof.
  split.
  - apply (proj1 (proj2 (fmtDuration_is_or_empty (VStr "about 4 minutes")))). reflexivity.
  - apply (proj2 (proj2 (fmtDuration_is_or_empty VNull))). reflexivity.
Defined.

Lemma coalesce_null_again (a b : value) :
  coalesce (coalesce (coalesce (coalesce a b) VNull) VUndefined) VNull
  = coalesce (coalesce a b) VNull.
Proof. unfold coalesce. destruct a, b; reflexivity. Qed.

Lemma coalesce_default_again (a b c : value) :
  nullish c = false ->
  coalesce (coalesce (coalesce (coalesce a b) c) VUndefined) c
  = coalesce (coalesce a b) c.
Proof. unfold coalesce. destruct a, b, c; simpl; intros H; try discriminate H; reflexivity. Qed.

Lemma coalesce_id_again (a b : value) (i j : Z) :
  coalesce (coalesce (coalesce (coalesce a b) (VNum i)) VUndefined) (VNum j)
  = coalesce (coalesce a b) (VNum i).
Proof. unfold coalesce. destruct a, b; reflexivity. Qed.

Lemma coalesce_preview_again (p q u v : value) :
  coalesce
    (coalesce
       (coalesce
          (coalesce (coalesce (coalesce (coalesce (coalesce p q) u) v) VNull) VUndefined)
          (coalesce (coalesce u v) VNull))
       VUndefined)
    VNull
  = coalesce (coalesce (coalesce (coalesce p q) u) v) VNull.
Proof. unfold coalesce. destruct p, q, u, v; reflexivity. Qed.

(** X12.  [normalizeSong] is idempotent: a normalized song is readable, and
    normalizing it again, at any index, gives it back unchanged.  ([goToSong]
    normalizes the songs [bindGridClicks] has already normalized.) *)
Theorem normalizeSong_idempotent (r : value) (idx idx' : Z) (song : value) :
  normalizeSong r idx = Some song -> normalizeSong song idx' = Some song.
Proof.
  unfold normalizeSong. destruct (readable r); [| discriminate].
  intros H. injection H as <-. cbn [readable].
  set (f := field r). clearbody f. cbn -[coalesce].
  rewrite coalesce_id_again, coalesce_preview_again, !coalesce_null_again.
  now rewrite coalesce_default_again.
Qed.

Lemma normalizeSong_idempotent_witness :
  normalizeSong
    (VObj [("song_id", VNum 7); ("title", VStr "Intro"); ("duration", VNull);
           ("url_file", VStr "a.mp3"); ("cover_image_url", VNull); ("thumbnail_url", VNull);
           ("genre", VNull); ("language", VNull); ("lyrics", VNull);
           ("spotify_track_id", VNull); ("spotify_track_uri", VNull);
           ("spotify_track_url", VNull); ("spotify_preview_url", VStr "a.mp3")]) 0
  = Some
      (VObj [("song_id", VNum 7); ("title", VStr "Intro"); ("duration", VNull);
             ("url_file", VStr "a.mp3"); ("cover_image_url", VNull); ("thumbnail_url", VNull);
             ("genre", VNull); ("language", VNull); ("lyrics", VNull);
             ("spotify_track_id", VNull); ("spotify_track_uri", VNull);
             ("spotify_track_url", VNull); ("spotify_preview_url", VStr "a.mp3")]).
Proof.
  apply (normalizeSong_idempotent
           (VObj [("SongID", VNum 7); ("Title", VStr "Intro"); ("URL_File", VStr "a.mp3")])
           4 0).
  reflexivity.
Defined.

Lemma normalize_from_positions (raw : list value) :
  forall idx : Z,
    (forall r, r ∈ raw -> readable r = true) ->
    exists songs,
      normalize_from idx raw = Some songs
      ∧ length songs = length raw
      ∧ (forall (i : nat) (r : value), raw !! i = Some r ->
           songs !! i = normalizeSong r (idx + Z.of_nat i)).
Proof.
  induction raw as [| r raw IH]; intros idx Hreadable.
  - exists []. repeat split. intros i r Hi. discriminate Hi.
  - assert (Hr : readable r = true) by (apply Hreadable; left).
    destruct (IH (idx + 1)) as (songs & Hsongs & Hlen & Hpos).
    { intros r' Hin. apply Hreadable. now right. }
    cbn [normalize_from]. rewrite Hsongs.
    unfold normalizeSong at 1. rewrite Hr.
    eexists. split; [reflexivity |]. split; [simpl; now rewrite Hlen |].
    intros [| i] r' Hi.
    + injection Hi as <-. rewrite Z.add_0_r. unfold normalizeSong. now rewrite Hr.
    + assert (Hi' : raw !! i = Some r') by exact Hi.
      transitivity (songs !! i); [reflexivity |].
      rewrite (Hpos i r' Hi'). f_equal. lia.
Qed.

(** X13.  [getFallbackSongs] keeps the songs of [window.__HENRY_SONGS__] in
    place: of an array of records it returns as many songs, the one at
    position [i] being the record at position [i] normalized with index [i];
    a record without [song_id] and [SongID] gets the id [i + 1], so that
    records without ids get distinct ids.  Of a value that is not an array
    it returns the empty list. *)
Theorem getFallbackSongs_positions (henry_songs : value) :
  (forall raw, henry_songs = VArr raw ->
     (forall r, r ∈ raw -> readable r = true) ->
     exists songs,
       getFallbackSongs henry_songs = Some songs
       ∧ length songs = length raw
       ∧ (forall (i : nat) (r : value), raw !! i = Some r ->
            songs !! i = normalizeSong r (Z.of_nat i)
            ∧ (nullish (field r "song_id") = true -> nullish (field r "SongID") = true ->
               exists song, songs !! i = Some song
                            ∧ field song "song_id" = VNum (Z.of_nat i + 1))))
  ∧ ((forall raw, henry_songs <> VArr raw) -> getFallbackSongs henry_songs = Some []).
Proof.
  split.
  - intros raw -> Hreadable.
    destruct (normalize_from_positions raw 0 Hreadable) as (songs & Hsongs & Hlen & Hpos).
    exists songs. split; [exact Hsongs |]. split; [exact Hlen |].
    intros i r Hi. specialize (Hpos i r Hi). rewrite Z.add_0_l in Hpos.
    split; [exact Hpos |]. intros Hid1 Hid2.
    rewrite Hpos. unfold normalizeSong.
    rewrite (Hreadable r) by (apply list_elem_of_lookup; eauto).
    eexists. split; [reflexivity |].
    unfold coalesce at 1 2. rewrite Hid1, Hid2. reflexivity.
  - intros Hnot. destruct henry_songs; try reflexivity. now destruct (Hnot xs).
Qed.

Lemma getFallbackSongs_positions_witness :
  (exists songs,
     getFallbackSongs (VArr [VObj [("Title", VStr "A")]; VObj [("Title", VStr "B")]])
       = Some songs
     ∧ length songs = 2%nat)
  ∧ getFallbackSongs VUndefined = Some [].
Proof.
  split.
  - destruct (proj1 (getFallbackSongs_positions
                       (VArr [VObj [("Title", VStr "A")]; VObj [("Title", VStr "B")]]))
                [VObj [("Title", VStr "A")]; VObj [("Title", VStr "B")]] eq_refl)
      as (songs & Hsongs & Hlen & _).
    + intros r Hr. apply elem_of_cons in Hr as [-> | Hr]; [reflexivity |].
      apply elem_of_cons in Hr as [-> | Hr]; [reflexivity |]. now apply elem_of_nil in Hr.
    + exists songs. split; [exact Hsongs | exact Hlen].
  - apply (proj2 (getFallbackSongs_positions VUndefined)). intros raw H. discriminate H.
Defined.

(** ** The grid *)

Example totalPages_of_20_by_9 : Grid.totalPages 20 (Some 9) = Grid.Int 3.
Proof. reflexivity. Qed.
Example totalPages_not_a_number : Grid.totalPages 20 None = Grid.NaN.
Proof. reflexivity. Qed.
Example slice_negative_end :
  Grid.slice [VNum 1; VNum 2; VNum 3; VNum 4] (Some 0) (Some (-1)) = [VNum 1; VNum 2; VNum 3].
Proof. reflexivity. Qed.

Lemma page_count_spec (total size : Z) :
  1 <= size -> 0 <= total ->
  1 <= Grid.page_count total size
  ∧ total <= Grid.page_count total size * size
  ∧ (0 < total -> (Grid.page_count total size - 1) * size < total)
  ∧ (total = 0 -> Grid.page_count total size = 1).
Proof.
  intros Hsize Htotal. unfold Grid.page_count.
  pose proof (Z.div_mod (- total) size ltac:(lia)) as Hdiv.
  pose proof (Z.mod_pos_bound (- total) size ltac:(lia)) as Hmod.
  set (q := (- total) / size) in *. set (r := (- total) mod size) in *.
  assert (q <= 0) by nia.
  repeat split; try nia.
Qed.

Lemma totalPages_positive (total size : Z) :
  1 <= size -> Grid.totalPages total (Some size) = Grid.Int (Grid.page_count total size).
Proof. intros H. unfold Grid.totalPages, Grid.page_count. destruct size; try lia; reflexivity. Qed.

Lemma slice_in_range (xs : list value) (a s : Z) :
  0 <= a -> a <= Z.of_nat (length xs) -> 0 <= s ->
  Grid.slice xs (Some a) (Some (Z.min (a + s) (Z.of_nat (length xs))))
  = take (Z.to_nat s) (drop (Z.to_nat a) xs).
Proof.
  intros Ha Hlen Hs. unfold Grid.slice, Grid.relative_index.
  set (n := Z.of_nat (length xs)) in *.
  assert ((a <? 0) = false) as -> by lia.
  assert ((Z.min (a + s) n <? 0) = false) as -> by lia.
  replace (Z.min a n) with a by lia.
  replace (Z.min (Z.min (a + s) n) n) with (Z.min (a + s) n) by lia.
  destruct (Z.le_gt_cases (a + s) n) as [Hfits | Hover].
  - now replace (Z.min (a + s) n - a) with s by lia.
  - rewrite !take_ge; [reflexivity | |]; rewrite length_drop; unfold n in *; lia.
Qed.

(** A render with a page size of at least one. *)
Lemma renderGrid_positive (songs : list value) (pg size : Z) :
  1 <= size -> 1 <= pg ->
  let n := Z.of_nat (length songs) in
  let k := Grid.page_count n size in
  let pg' := Z.min pg k in
  let shown := take (Z.to_nat size) (drop (Z.to_nat ((pg' - 1) * size)) songs) in
  Grid.renderGrid (Grid.State songs pg (Some size))
  = (Grid.State songs pg' (Some size),
     Grid.View ("Page " +:+ string_of_Z pg' +:+ " / " +:+ string_of_Z k)
               (pg' <=? 1) (k <=? pg')
               (if n =? 0 then [] else shown) (n =? 0)
               (if n =? 0 then None else Some shown)).
Proof.
  intros Hsize Hpg n k pg' shown. unfold Grid.renderGrid.
  cbn [Grid.allSongs Grid.page Grid.pageSize]. fold n.
  rewrite (totalPages_positive n size Hsize). fold k.
  cbn [Grid.gt Grid.ge Grid.num_text].
  pose proof (page_count_spec n size Hsize ltac:(lia)) as (Hk1 & Hk2 & Hk3 & _). fold k in Hk1, Hk2, Hk3.
  assert (Hpg' : (if k <? pg then k else pg) = pg').
  { unfold pg'. destruct (k <? pg) eqn:Hlt; lia. }
  rewrite Hpg'.
  destruct (n =? 0) eqn:Hn; [reflexivity |].
  cbn [fmap option_fmap option_map].
  assert (Hshown : Grid.slice songs (Some ((pg' - 1) * size))
                     (Some (Z.min ((pg' - 1) * size + size) n)) = shown).
  { apply slice_in_range; unfold pg' in *; fold n; nia. }
  now rewrite Hshown.
Qed.



(** X15.  The two buttons say where one can go.  After a render with a page
    size of at least one and a page of at least one, "previous" is disabled
    exactly on page 1, and "next" is disabled exactly when no song lies
    beyond the page shown, that is when [page * pageSize] reaches the number
    of songs. *)
Theorem renderGrid_buttons (songs : list value) (pg size : Z) :
  1 <= size -> 1 <= pg ->
  let st' := fst (Grid.renderGrid (Grid.State songs pg (Some size))) in
  let v := snd (Grid.renderGrid (Grid.State songs pg (Some size))) in
  (Grid.prevDisabled v = true <-> Grid.page st' = 1)
  ∧ (Grid.nextDisabled v = true <-> Z.of_nat (length songs) <= Grid.page st' * size).
Proof.
  intros Hsize Hpg. cbv zeta.
  rewrite (renderGrid_positive songs pg size Hsize Hpg).
  cbn [fst snd Grid.page Grid.prevDisabled Grid.nextDisabled].
  set (n := Z.of_nat (length songs)). set (k := Grid.page_count n size).
  pose proof (page_count_spec n size Hsize ltac:(lia)) as (Hk1 & Hk2 & Hk3 & Hk4).
  fold k in Hk1, Hk2, Hk3, Hk4.
  rewrite !Z.leb_le. split; [lia |].
  split; intros H.
  - replace (Z.min pg k) with k by lia. exact Hk2.
  - destruct (Z.eq_dec n 0) as [Hzero | Hpos]; [rewrite (Hk4 Hzero); lia |].
    assert (0 < n) by lia. nia.
Qed.

Lemma renderGrid_buttons_witness :
  Grid.prevDisabled (snd (Grid.renderGrid (Grid.State (Grid.example_songs 20) 1 (Some 9))))
    = true
  ∧ Grid.nextDisabled (snd (Grid.renderGrid (Grid.State (Grid.example_songs 20) 3 (Some 9))))
    = true.
Proof.
  split.
  - apply (proj1 (renderGrid_buttons (Grid.example_songs 20) 1 9 ltac:(lia) ltac:(lia))).
    reflexivity.
  - apply (proj2 (renderGrid_buttons (Grid.example_songs 20) 3 9 ltac:(lia) ltac:(lia))).
    vm_compute. discriminate.
Defined.




Lemma renderGrid_state (songs : list value) (pg size : Z) :
  1 <= size -> 1 <= pg ->
  fst (Grid.renderGrid (Grid.State songs pg (Some size)))
  = Grid.State songs (Z.min pg (Grid.page_count (Z.of_nat (length songs)) size)) (Some size).
Proof. intros Hsize Hpg. now rewrite (renderGrid_positive songs pg size Hsize Hpg). Qed.

Lemma handle_in_range (st : Grid.state) (ev : Grid.event) :
  Grid.in_range st -> selectable ev ->
  Grid.in_range (fst (Grid.handle st ev))
  ∧ Grid.allSongs (fst (Grid.handle st ev)) = Grid.allSongs st.
Proof.
  destruct st as [songs pg size0]. intros (size & Hsize0 & Hsize & Hpg) Hev.
  cbn [Grid.allSongs Grid.page Grid.pageSize] in *. subst size0.
  set (n := Z.of_nat (length songs)) in *.
  destruct ev as [v | |]; cbn [Grid.handle Grid.allSongs Grid.page Grid.pageSize fst].
  - set (size' := match parseInt v with Some 0 | None => 9 | Some s => s end).
    assert (Hsize' : 1 <= size').
    { unfold size'. cbn [selectable] in Hev.
      destruct (parseInt v) as [z |]; [| lia].
      specialize (Hev z eq_refl). destruct z; lia. }
    rewrite (renderGrid_state songs 1 size' Hsize' ltac:(lia)).
    pose proof (page_count_spec n size' Hsize' ltac:(lia)) as (Hk1 & _).
    split; [| reflexivity]. exists size'. cbn [Grid.allSongs Grid.page Grid.pageSize].
    fold n. split; [reflexivity |]. split; [exact Hsize' | lia].
  - destruct (1 <? pg) eqn:Hlt; cbn [fst].
    + rewrite (renderGrid_state songs (pg - 1) size Hsize ltac:(lia)).
      split; [| reflexivity]. exists size. cbn [Grid.allSongs Grid.page Grid.pageSize].
      fold n. split; [reflexivity |]. split; [exact Hsize | lia].
    + split; [| reflexivity]. exists size. cbn [Grid.allSongs Grid.page Grid.pageSize].
      fold n. auto.
  - fold n. rewrite (totalPages_positive n size Hsize). cbn [Grid.lt].
    destruct (pg <? Grid.page_count n size) eqn:Hlt; cbn [fst].
    + rewrite (renderGrid_state songs (pg + 1) size Hsize ltac:(lia)).
      split; [| reflexivity]. exists size. cbn [Grid.allSongs Grid.page Grid.pageSize].
      fold n. split; [reflexivity |]. split; [exact Hsize | lia].
    + split; [| reflexivity]. exists size. cbn [Grid.allSongs Grid.page Grid.pageSize].
      fold n. auto.
Qed.

(** X17.  The listeners keep the grid in order.  From a state with a page
    size of at least one and a page between 1 and the number of pages (the
    state of a fresh page is one), any sequence of clicks on "previous" and
    "next" and of changes of the page size leaves such a state, with the
    same songs, provided [parseInt] reads no negative number from the values
    the selector takes.  A value [parseInt] cannot read, and the value 0,
    give the page size 9. *)
Theorem listeners_keep_page_in_range (st : Grid.state) (evs : list Grid.event) :
  Grid.in_range st ->
  Forall selectable evs ->
  Grid.in_range (Grid.handle_all st evs)
  ∧ Grid.allSongs (Grid.handle_all st evs) = Grid.allSongs st.
Proof.
  revert st. induction evs as [| ev evs IH]; intros st Hst Hevs.
  - now split.
  - inversion Hevs as [| ev' evs' Hev Hrest]; subst.
    destruct (handle_in_range st ev Hst Hev) as [Hst' Hsongs].
    destruct (IH (fst (Grid.handle st ev)) Hst' Hrest) as [Hfinal Hsongs'].
    unfold Grid.handle_all in *. cbn [foldl]. split; [exact Hfinal | congruence].
Qed.

Lemma listeners_keep_page_in_range_witness :
  Grid.handle_all (Grid.State (Grid.example_songs 20) 1 (Some 9))
    [Grid.ClickNext; Grid.ClickNext; Grid.ClickNext; Grid.ChangePageSize "all";
     Grid.ClickPrev; Grid.ChangePageSize "12"; Grid.ClickNext]
  = Grid.State (Grid.example_songs 20) 2 (Some 12)
  ∧ Grid.in_range (Grid.State (Grid.example_songs 20) 2 (Some 12)).
Proof.
  assert (Hrun :
    Grid.handle_all (Grid.State (Grid.example_songs 20) 1 (Some 9))
      [Grid.ClickNext; Grid.ClickNext; Grid.ClickNext; Grid.ChangePageSize "all";
       Grid.ClickPrev; Grid.ChangePageSize "12"; Grid.ClickNext]
    = Grid.State (Grid.example_songs 20) 2 (Some 12)) by (vm_compute; reflexivity).
  split; [exact Hrun |]. rewrite <- Hrun.
  apply (listeners_keep_page_in_range (Grid.State (Grid.example_songs 20) 1 (Some 9))).
  - exists 9. cbn. repeat split; try lia. vm_compute. discriminate.
  - repeat constructor; cbn [selectable]; intros z Hz; vm_compute in Hz;
      try discriminate Hz; injection Hz as <-; lia.
Defined.

(** X18.  The first render has no fallback for the page size.  The
    listener of the selector replaces a size that [parseInt] cannot read, and
    the size 0, by 9; the initial state does not.  With such a size ([NaN]
    or 0) and at least one song, [renderGrid] fills the grid with no card at
    all, hides the empty notice, leaves the page as it is and never disables
    "next"; the indicator reads "/ NaN" or "/ Infinity". *)
Theorem renderGrid_without_page_size (songs : list value) (pg : Z) (size : option Z) :
  songs <> [] ->
  size = None ∨ size = Some 0 ->
  let st' := fst (Grid.renderGrid (Grid.State songs pg size)) in
  let v := snd (Grid.renderGrid (Grid.State songs pg size)) in
  Grid.cards v = []
  ∧ Grid.emptyShown v = false
  ∧ Grid.nextDisabled v = false
  ∧ Grid.page st' = pg
  ∧ Grid.indicator v
      = "Page " +:+ string_of_Z pg +:+ " / "
        +:+ match size with Some _ => "Infinity" | None => "NaN" end
  ∧ (forall selected,
       parseInt selected = size ->
       Grid.pageSize (fst (Grid.handle (Grid.State songs pg size)
                                       (Grid.ChangePageSize selected))) = Some 9).
Proof.
  intros Hsongs Hsize. cbv zeta.
  assert (Hn : (Z.of_nat (length songs) =? 0) = false).
  { apply Z.eqb_neq. destruct songs; [congruence | simpl; lia]. }
  destruct Hsize as [-> | ->]; unfold Grid.renderGrid;
    cbn [Grid.allSongs Grid.page Grid.pageSize Grid.totalPages Grid.gt Grid.ge Grid.num_text];
    rewrite Hn; cbn [Grid.gt Grid.ge Grid.num_text fst snd Grid.cards Grid.emptyShown
                     Grid.nextDisabled Grid.page Grid.indicator fmap option_fmap option_map].
  - repeat split.
    intros selected Hparse. cbn [Grid.handle]. rewrite Hparse.
    unfold Grid.renderGrid. cbn [Grid.allSongs Grid.page Grid.pageSize]. rewrite Hn.
    destruct (Grid.gt 1 (Grid.totalPages (Z.of_nat (length songs)) (Some 9))); reflexivity.
  - rewrite Z.mul_0_r. split.
    + unfold Grid.slice, Grid.relative_index.
      replace (Z.min (0 + 0) (Z.of_nat (length songs))) with 0 by lia.
      replace (Z.min 0 (Z.of_nat (length songs))) with 0 by lia. reflexivity.
    + repeat split.
      intros selected Hparse. cbn [Grid.handle]. rewrite Hparse.
      unfold Grid.renderGrid. cbn [Grid.allSongs Grid.page Grid.pageSize]. rewrite Hn.
      destruct (Grid.gt 1 (Grid.totalPages (Z.of_nat (length songs)) (Some 9))); reflexivity.
Qed.

Lemma renderGrid_without_page_size_witness :
  Grid.cards (snd (Grid.renderGrid (Grid.State (Grid.example_songs 20) 1 (parseInt "all"))))
    = []
  ∧ Grid.indicator (snd (Grid.renderGrid (Grid.State (Grid.example_songs 20) 1
                                                     (parseInt "all"))))
    = "Page 1 / NaN".
Proof.
  destruct (renderGrid_without_page_size (Grid.example_songs 20) 1 (parseInt "all"))
    as (Hcards & _ & _ & _ & Htext & _).
  - vm_compute. discriminate.
  - left. reflexivity.
  - split; [exact Hcards | exact Htext].
Defined.

(** ** More on [fetchAllSongs] and [escapeHtml] *)

Lemma requested_none (e : env) (page : Z) (w : world) : requested e page 0 w = w.
Proof. destruct w. unfold requested, pages_from. simpl. now rewrite app_nil_r. Qed.

Lemma requested_one_more (e : env) (page : Z) (k : nat) (w : world) :
  requested e (page + 1) k (sent (songs_request e page) w) = requested e page (S k) w.
Proof.
  unfold requested, sent. rewrite (pages_from_S page k). simpl. now rewrite <- app_assoc.
Qed.

Lemma loop_requests (e : env) (fuel : nat) :
  forall (page : Z) (all : list value) (w : world),
    exists k : nat,
      (k <= fuel)%nat
      ∧ after (fetchAllSongs_loop e fuel page all w) = requested e page k w
      ∧ (forall i : nat, (S i < k)%nat ->
           full_page (page_answer e (page + Z.of_nat i)) = true).
Proof.
  induction fuel as [| fuel IH]; intros page all w.
  - exists 0%nat. split; [lia |]. split; [symmetry; apply requested_none | lia].
  - rewrite loop_step. destruct (full_page (page_answer e page)) eqn:Hfull.
    + destruct (IH (page + 1) (all ++ rows_of (page_answer e page))%list
                   (sent (songs_request e page) w)) as (k & Hk & Hafter & Hpages).
      exists (S k). split; [lia |]. split; [now rewrite Hafter, requested_one_more |].
      intros [| i] Hi.
      * now rewrite Z.add_0_r.
      * replace (page + Z.of_nat (S i)) with (page + 1 + Z.of_nat i) by lia.
        apply Hpages. lia.
    + exists 1%nat. split; [lia |]. split; [| lia].
      cbn [after snd]. rewrite <- requested_one_more. now rewrite requested_none.
Qed.

(** X19.  [fetchAllSongs] asks for the pages in order and for nothing else.
    Whatever the backend answers and however the run ends (a result, an
    exception, or the end of the fuel), the requests made are those of the
    pages 1, 2, ..., [k] for some [k], each once, in this order, with the
    page size 200; every page before the last one requested came back full
    (a success with at least 200 rows); and the storage and the navigations
    are left as they were. *)
Theorem fetchAllSongs_requests (e : env) (fuel : nat) (w : world) :
  exists k : nat,
    (k <= fuel)%nat
    ∧ reqs (after (fetchAllSongs e fuel w))
        = (reqs w ++ map (fun p => Request "GET"
                                     (Url (SONGS_BASE e +:+ "/api/songs")
                                          [("page", string_of_Z p); ("page_size", "200")])
                                     [] None)
                         (pages_from 1 k))%list
    ∧ (forall i : nat, (S i < k)%nat -> full_page (page_answer e (1 + Z.of_nat i)) = true)
    ∧ ls (after (fetchAllSongs e fuel w)) = ls w
    ∧ ss (after (fetchAllSongs e fuel w)) = ss w
    ∧ navs (after (fetchAllSongs e fuel w)) = navs w.
Proof.
  destruct (loop_requests e fuel 1 [] w) as (k & Hk & Hafter & Hpages).
  exists k. unfold fetchAllSongs. rewrite Hafter.
  split; [exact Hk |]. split; [reflexivity |]. split; [exact Hpages |]. repeat split.
Qed.

Lemma safe_entity (c : ascii) :
  Ascii.eqb "&" c = false -> Ascii.eqb "<" c = false -> Ascii.eqb ">" c = false ->
  Ascii.eqb "034" c = false -> Ascii.eqb "'" c = false ->
  entity c = String c EmptyString.
Proof.
  unfold entity. intros H1 H2 H3 H4 H5.
  rewrite (Ascii.eqb_sym c "&"), H1, (Ascii.eqb_sym c "<"), H2, (Ascii.eqb_sym c ">"), H3,
    (Ascii.eqb_sym c "034"), H4, (Ascii.eqb_sym c "'"), H5.
  reflexivity.
Qed.

Lemma entity_length (c : ascii) : (1 <= String.length (entity c))%nat.
Proof.
  unfold entity.
  repeat match goal with |- context [if ?b then _ else _] => destruct b end; simpl; lia.
Qed.

Lemma length_append (a b : string) :
  String.length (a +:+ b) = (String.length a + String.length b)%nat.
Proof.
  induction a as [| x a IH]; [reflexivity |].
  change (S (String.length (a +:+ b)) = S (String.length a + String.length b)).
  now rewrite IH.
Qed.

(** X20.  [escapeHtml] works piece by piece.  Escaping a text made of two
    pieces gives the escaped pieces put together, so markup may be built
    from parts escaped apart.  A text in which none of the five special
    characters occurs comes back unchanged, and no text gets shorter. *)
Theorem escapeHtml_pieces (a b : string) :
  escapeHtml (VStr (a +:+ b)) = escapeHtml (VStr a) +:+ escapeHtml (VStr b)
  ∧ (occurs "&" a = false -> occurs "<" a = false -> occurs ">" a = false ->
     occurs "034" a = false -> occurs "'" a = false ->
     escapeHtml (VStr a) = a)
  ∧ (String.length a <= String.length (escapeHtml (VStr a)))%nat.
Proof.
  rewrite !escapeHtml_entities. cbn [ToString].
  split; [apply concat_map_app |]. split.
  - induction a as [| c a IH]; [reflexivity |]. cbn [occurs concat_map].
    intros H1 H2 H3 H4 H5.
    apply orb_false_elim in H1 as [H1 H1'], H2 as [H2 H2'], H3 as [H3 H3'],
      H4 as [H4 H4'], H5 as [H5 H5'].
    rewrite (safe_entity c H1 H2 H3 H4 H5), (IH H1' H2' H3' H4' H5'). reflexivity.
  - induction a as [| c a IH]; [simpl; lia |]. cbn [concat_map String.length].
    rewrite length_append. pose proof (entity_length c). lia.
Qed.

Lemma escapeHtml_pieces_witness :
  escapeHtml (VStr "Song #12") = "Song #12".
Proof.
  apply (proj1 (proj2 (escapeHtml_pieces "Song #12" ""))); reflexivity.
Defined.
